(** * The blow-detection state machine of the birthday experience

    A shallow embedding of the per-frame [update] loop of the [App]
    component, in its two variants:

    - [Hysteresis]: the loop with a hit-run-length counter and a cooldown
      (src/services/geminiService.ts, second document, lines 205-354);
    - [AppTsx]: the loop that triggers on a single frame
      (src/App.tsx, lines 131-212).

    React state ([state], [progress], [micActive]) and refs
    ([lastStateTimeRef], [blowHitFramesRef], [lastTriggerAtRef],
    [analyserRef]) are the fields of one machine record; one call of the
    animation-frame callback is one application of [update] to the record,
    the value of [Date.now()] and the bytes the analyser delivers.  The
    callback closes over [state]: every comparison inside one call reads the
    state the call started with, and [setState] shows in the record
    returned. *)

From Stdlib Require Import String Ascii DecimalString.
From Stdlib Require Import ZArith QArith Qreduction List Bool Lia.
From Stdlib Require Import Strings.Byte.
Import ListNotations.

Local Open Scope Z_scope.

(** ** JavaScript values the loop computes with *)

(** The numbers the loop produces: timestamps, counters and bin sums are
    integers and are kept in [Z]; a quotient of two integers is a [Num].
    [Fin q] carries the exact quotient in lowest terms (the double the
    engine stores is the one nearest to it; every comparison below is
    against an integer and is not affected by that rounding). *)
Inductive Num : Type :=
| Fin (q : Q)
| PosInf
| NegInf
| NaN.

(** [a / b] on integer-valued numbers; division by zero gives an infinity
    or, for [0 / 0], [NaN]. *)
Definition js_div (a b : Z) : Num :=
  if b =? 0 then
    if 0 <? a then PosInf else if a <? 0 then NegInf else NaN
  else Fin (Qred (inject_Z a / inject_Z b)).

(** [x > t] for an integer [t]; any comparison with [NaN] is false. *)
Definition num_gt (x : Num) (t : Z) : bool :=
  match x with
  | Fin q => negb (Qle_bool q (inject_Z t))
  | PosInf => true
  | NegInf | NaN => false
  end.

(** [Math.min(x, y)]. *)
Definition Math_min (x y : Num) : Num :=
  match x, y with
  | NaN, _ | _, NaN => NaN
  | NegInf, _ | _, NegInf => NegInf
  | PosInf, _ => y
  | _, PosInf => x
  | Fin a, Fin b => if Qle_bool a b then Fin a else Fin b
  end.

(** The order of the numbers that are not [NaN]. *)
Definition num_le (x y : Num) : Prop :=
  match x, y with
  | NaN, _ | _, NaN => False
  | NegInf, _ => True
  | _, PosInf => True
  | Fin a, Fin b => (a <= b)%Q
  | _, _ => False
  end.

(** What a call can throw. *)
Inductive JsError : Type :=
| TypeError.

(** The result of a call: a value, or an exception that escapes it. *)
Inductive Outcome (A : Type) : Type :=
| Ok (a : A)
| Throw (e : JsError).

Arguments Ok {A} a.
Arguments Throw {A} e.

Definition bind {A B : Type} (c : Outcome A) (k : A -> Outcome B) : Outcome B :=
  match c with
  | Ok a => k a
  | Throw e => Throw e
  end.

Notation "x <- c ;; k" := (bind c (fun x => k))
  (at level 61, c at next level, right associativity).

(** Reading a property of [ref.current]: a [TypeError] when it is [null]. *)
Definition deref {A : Type} (r : option A) : Outcome A :=
  match r with
  | Some a => Ok a
  | None => Throw TypeError
  end.

(** Truthiness of [ref.current] (an object or [null]). *)
Definition truthy {A : Type} (r : option A) : bool :=
  match r with
  | Some _ => true
  | None => false
  end.

(** ** The data model *)

(** [ExperienceState] (types.ts is not among the sources; the seven string
    literals are the ones the component compares [state] with). *)
Inductive ExperienceState : Type :=
| IDLE
| LISTENING
| COUNTDOWN
| MORPH_CAKE
| CANDLES_LIT
| BLOW_OUT
| GIFT_OPEN.

(** An entry of the duration table: milliseconds, or [Infinity]. *)
Inductive Duration : Type :=
| Ms (d : Z)
| Infinity.

(** [DURATIONS]: a [Record<string, number>] with five keys; the lookup of
    any other key is [undefined]. *)
Definition DURATIONS (s : ExperienceState) : option Duration :=
  match s with
  | COUNTDOWN => Some (Ms 3000)
  | MORPH_CAKE => Some (Ms 4000)
  | CANDLES_LIT => Some Infinity
  | BLOW_OUT => Some (Ms 2000)
  | GIFT_OPEN => Some Infinity
  | IDLE | LISTENING => None
  end.

(** [DURATIONS[state] || 0]: [undefined] and [0] are falsy. *)
Definition lookupDuration (s : ExperienceState) : Duration :=
  match DURATIONS s with
  | Some (Ms d) => if d =? 0 then Ms 0 else Ms d
  | Some Infinity => Infinity
  | None => Ms 0
  end.

(** [duration !== Infinity]. *)
Definition notInfinity (d : Duration) : bool :=
  match d with
  | Ms _ => true
  | Infinity => false
  end.

(** [elapsed > duration]. *)
Definition exceeds (elapsed : Z) (d : Duration) : bool :=
  match d with
  | Ms d => d <? elapsed
  | Infinity => false
  end.

(** [elapsed / duration]; only evaluated under [duration !== Infinity]
    (a finite number over [Infinity] is [0]). *)
Definition elapsedOver (elapsed : Z) (d : Duration) : Num :=
  match d with
  | Ms d => js_div elapsed d
  | Infinity => Fin 0
  end.

(** The state the timeout branch sets: three [if]/[else if] arms, and no
    [setState] for any other state. *)
Definition nextOnTimeout (s : ExperienceState) : ExperienceState :=
  match s with
  | COUNTDOWN => MORPH_CAKE
  | MORPH_CAKE => CANDLES_LIT
  | BLOW_OUT => GIFT_OPEN
  | _ => s
  end.

(** The [AnalyserNode] as far as the loop looks at it. *)
Record AnalyserNode : Type := mkAnalyser { fftSize : Z }.

Definition frequencyBinCount (a : AnalyserNode) : Z := fftSize a / 2.

(** The contents of [dataArray] after [getByteFrequencyData]: one byte per
    frequency bin. *)
Definition Frame : Type := list byte.

Definition bin (b : byte) : Z := Z.of_N (Byte.to_N b).

(** [arr.reduce((a, b) => a + b, 0)]. *)
Definition reduceSum0 (arr : Frame) : Z :=
  fold_left (fun a b => a + bin b) arr 0.

(** [arr.reduce((a, b) => a + b)]: without an initial value the first
    element starts the fold, and an empty array is a [TypeError]. *)
Definition reduceSum (arr : Frame) : Outcome Z :=
  match arr with
  | [] => Throw TypeError
  | b :: rest => Ok (fold_left (fun a b => a + bin b) rest (bin b))
  end.

(** [dataArray.slice(0, n)]. *)
Definition slice0 (n : nat) (arr : Frame) : Frame := firstn n arr.

Definition lowFreqBins : nat := 15.
Definition blowThreshold : Z := 55.

(** One turn of the loop gets the clock and the frame. *)
Record Tick : Type := mkTick { now : Z; frame : Frame }.

(** ** The loop with run length and cooldown (geminiService.ts) *)

Module Hysteresis.

Definition cooldownMs : Z := 900.
Definition requiredFrames : Z := 6.

Record Machine : Type := mkMachine {
  state : ExperienceState;
  progress : Num;
  micActive : bool;
  analyserRef : option AnalyserNode;
  lastStateTimeRef : Z;
  blowHitFramesRef : Z;
  lastTriggerAtRef : Z
}.

(** The component as mounted at time [t0]. *)
Definition mount (t0 : Z) : Machine :=
  mkMachine IDLE (Fin 0) false None t0 0 0.

(** [initMic]: [granted] tells whether the [try] block ran to its end.
    The analyser is stored in the last statement of the block that can
    throw, so a failure leaves [analyserRef] as it was. *)
Definition initMic (granted : bool) (m : Machine) : Machine :=
  if granted then
    mkMachine LISTENING (progress m) true (Some (mkAnalyser 512))
              (lastStateTimeRef m) (blowHitFramesRef m) (lastTriggerAtRef m)
  else
    mkMachine LISTENING (progress m) false (analyserRef m)
              (lastStateTimeRef m) (blowHitFramesRef m) (lastTriggerAtRef m).

(** Lines 289-304: the timeout branch and the progress update. *)
Definition timeoutStep (m : Machine) (now : Z) : Machine :=
  let elapsed := now - lastStateTimeRef m in
  let duration := lookupDuration (state m) in
  if notInfinity duration && exceeds elapsed duration then
    mkMachine (nextOnTimeout (state m)) (Fin 0) (micActive m) (analyserRef m)
              now 0 (lastTriggerAtRef m)
  else if notInfinity duration then
    mkMachine (state m) (Math_min (elapsedOver elapsed duration) (Fin 1))
              (micActive m) (analyserRef m)
              (lastStateTimeRef m) (blowHitFramesRef m) (lastTriggerAtRef m)
  else m.

(** Lines 311-318: the hit test. *)
Definition isHit (dataArray : Frame) : bool :=
  let lowFreqSum :=
    js_div (reduceSum0 (slice0 lowFreqBins dataArray)) (Z.of_nat lowFreqBins) in
  let totalAverage :=
    js_div (reduceSum0 dataArray) (Z.of_nat (length dataArray)) in
  num_gt lowFreqSum blowThreshold || num_gt totalAverage blowThreshold.

(** Lines 321-325: the run-length counter. *)
Definition countFrame (hit : bool) (hits : Z) : Z :=
  if hit then hits + 1 else Z.max 0 (hits - 1).

(** The counter as the trigger gate reads it. *)
Definition hitsAtGate (m : Machine) (dataArray : Frame) : Z :=
  countFrame (isHit dataArray) (blowHitFramesRef m).

Definition canTrigger (m : Machine) (now : Z) : bool :=
  cooldownMs <? now - lastTriggerAtRef m.

Definition shouldTrigger (hits : Z) : bool :=
  requiredFrames <=? hits.

(** Lines 306-347: the audio block.  [st] is the state the callback
    closed over; [m] is the machine as the timeout branch left it. *)
Definition audioStep (st : ExperienceState) (m : Machine) (t : Tick)
  : Outcome Machine :=
  if truthy (analyserRef m) && micActive m then
    a <- deref (analyserRef m) ;;
    let _ := frequencyBinCount a in
    let dataArray := frame t in
    let hits := hitsAtGate m dataArray in
    if canTrigger m (now t) && shouldTrigger hits then
      match st with
      | LISTENING =>
          Ok (mkMachine COUNTDOWN (progress m) (micActive m) (analyserRef m)
                        (now t) 0 (now t))
      | CANDLES_LIT =>
          Ok (mkMachine BLOW_OUT (progress m) (micActive m) (analyserRef m)
                        (now t) 0 (now t))
      | _ =>
          Ok (mkMachine (state m) (progress m) (micActive m) (analyserRef m)
                        (lastStateTimeRef m) hits (lastTriggerAtRef m))
      end
    else
      Ok (mkMachine (state m) (progress m) (micActive m) (analyserRef m)
                    (lastStateTimeRef m) hits (lastTriggerAtRef m))
  else Ok m.

(** What the audio block does, case by case. *)
Inductive AudioCase (st : ExperienceState) (m : Machine) (t : Tick)
  : Machine -> Prop :=
| audio_off :
    truthy (analyserRef m) && micActive m = false ->
    AudioCase st m t m
| audio_counted :
    truthy (analyserRef m) && micActive m = true ->
    canTrigger m (now t) && shouldTrigger (hitsAtGate m (frame t)) = false \/
    (st <> LISTENING /\ st <> CANDLES_LIT) ->
    AudioCase st m t
      (mkMachine (state m) (progress m) (micActive m) (analyserRef m)
                 (lastStateTimeRef m) (hitsAtGate m (frame t))
                 (lastTriggerAtRef m))
| audio_triggered :
    truthy (analyserRef m) && micActive m = true ->
    canTrigger m (now t) && shouldTrigger (hitsAtGate m (frame t)) = true ->
    st = LISTENING \/ st = CANDLES_LIT ->
    AudioCase st m t
      (mkMachine (match st with LISTENING => COUNTDOWN | _ => BLOW_OUT end)
                 (progress m) (micActive m) (analyserRef m)
                 (now t) 0 (now t)).

(** One call of [update]. *)
Definition update (m : Machine) (t : Tick) : Outcome Machine :=
  audioStep (state m) (timeoutStep m (now t)) t.

(** The loop over a sequence of frames; an exception ends it. *)
Fixpoint run (m : Machine) (ticks : list Tick) : Outcome Machine :=
  match ticks with
  | [] => Ok m
  | t :: rest => m' <- update m t ;; run m' rest
  end.

(** The state after each call, in order. *)
Fixpoint stateTrace (m : Machine) (ticks : list Tick) : list ExperienceState :=
  match ticks with
  | [] => []
  | t :: rest =>
      match update m t with
      | Ok m' => state m' :: stateTrace m' rest
      | Throw _ => []
      end
  end.

(** The counter at the gate in each call, in order. *)
Fixpoint gateTrace (m : Machine) (ticks : list Tick) : list Z :=
  match ticks with
  | [] => []
  | t :: rest =>
      hitsAtGate (timeoutStep m (now t)) (frame t) ::
      match update m t with
      | Ok m' => gateTrace m' rest
      | Throw _ => []
      end
  end.

(** The clock moves on between any two calls, starting after [last]. *)
Fixpoint clockAdvances (last : Z) (ticks : list Tick) : Prop :=
  match ticks with
  | [] => True
  | t :: rest => last < now t /\ clockAdvances (now t) rest
  end.

End Hysteresis.

(** ** The loop that triggers on one frame (App.tsx) *)

Module AppTsx.

Record Machine : Type := mkMachine {
  state : ExperienceState;
  progress : Num;
  micActive : bool;
  analyserRef : option AnalyserNode;
  lastStateTimeRef : Z
}.

Definition mount (t0 : Z) : Machine :=
  mkMachine IDLE (Fin 0) false None t0.

(** [initMic]: the [catch] arm only sets the state. *)
Definition initMic (granted : bool) (m : Machine) : Machine :=
  if granted then
    mkMachine LISTENING (progress m) true (Some (mkAnalyser 512))
              (lastStateTimeRef m)
  else
    mkMachine LISTENING (progress m) (micActive m) (analyserRef m)
              (lastStateTimeRef m).

(** Lines 178-187. *)
Definition timeoutStep (m : Machine) (now : Z) : Machine :=
  let elapsed := now - lastStateTimeRef m in
  let duration := lookupDuration (state m) in
  if notInfinity duration && exceeds elapsed duration then
    mkMachine (nextOnTimeout (state m)) (Fin 0) (micActive m) (analyserRef m) now
  else if notInfinity duration then
    mkMachine (state m) (Math_min (elapsedOver elapsed duration) (Fin 1))
              (micActive m) (analyserRef m) (lastStateTimeRef m)
  else m.

(** Lines 197-203: the two averages and the test on them. *)
Definition isHit (dataArray : Frame) : Outcome bool :=
  let lowFreqSum := js_div (reduceSum0 (slice0 15 dataArray)) 15 in
  total <- reduceSum dataArray ;;
  let totalAverage := js_div total (Z.of_nat (length dataArray)) in
  Ok (num_gt lowFreqSum blowThreshold || num_gt totalAverage blowThreshold).

(** Lines 189-207. *)
Definition audioStep (st : ExperienceState) (m : Machine) (t : Tick)
  : Outcome Machine :=
  if truthy (analyserRef m) && micActive m then
    a <- deref (analyserRef m) ;;
    let _ := frequencyBinCount a in
    hit <- isHit (frame t) ;;
    if hit then
      match st with
      | LISTENING =>
          Ok (mkMachine COUNTDOWN (progress m) (micActive m) (analyserRef m) (now t))
      | CANDLES_LIT =>
          Ok (mkMachine BLOW_OUT (progress m) (micActive m) (analyserRef m) (now t))
      | _ => Ok m
      end
    else Ok m
  else Ok m.

Definition update (m : Machine) (t : Tick) : Outcome Machine :=
  audioStep (state m) (timeoutStep m (now t)) t.

Fixpoint run (m : Machine) (ticks : list Tick) : Outcome Machine :=
  match ticks with
  | [] => Ok m
  | t :: rest => m' <- update m t ;; run m' rest
  end.

End AppTsx.

(** ** The words of the specification *)

(** The mean of a sequence of bins: their sum over their number. *)
Definition mean (bins : Frame) : Num :=
  js_div (reduceSum0 bins) (Z.of_nat (length bins)).

(** "The mean of the first 15 bins exceeds 55 or the mean over all bins
    exceeds 55." *)
Definition specHit (f : Frame) : Prop :=
  num_gt (mean (firstn 15 f)) 55 = true \/ num_gt (mean f) 55 = true.

(** The same sentence once more, without the functions of the loop: the
    amplitude of a bin is the number 0 to 255 its byte stands for, the mean
    of some bins is the sum of their amplitudes over their number, an exact
    fraction, and there is no mean of no bins. *)
Definition amplitude (b : byte) : nat := Byte.to_nat b.

Definition meanOf (bins : list byte) : option Q :=
  match bins with
  | [] => None
  | _ :: _ =>
      Some (inject_Z (Z.of_nat (list_sum (map amplitude bins)))
            / inject_Z (Z.of_nat (length bins)))%Q
  end.

Definition meanExceeds (bins : list byte) (threshold : Z) : Prop :=
  match meanOf bins with
  | Some q => (inject_Z threshold < q)%Q
  | None => False
  end.

Definition hitBySpec (f : list byte) : Prop :=
  meanExceeds (firstn 15 f) 55 \/ meanExceeds f 55.

(** ** Frames used in the examples *)

Definition loud : Frame := repeat xff 256.
Definition quiet : Frame := repeat x00 256.

Definition ticksEvery (step : Z) (start : Z) (frames : list Frame) : list Tick :=
  snd (fold_left (fun acc f => (fst acc + step, snd acc ++ [mkTick (fst acc) f]))
                 frames (start, [])).

(** ** The order of the stages *)

(** The place of a state in the sequence the loop drives. *)
Definition stageIndex (s : ExperienceState) : Z :=
  match s with
  | IDLE => 0
  | LISTENING => 1
  | COUNTDOWN => 2
  | MORPH_CAKE => 3
  | CANDLES_LIT => 4
  | BLOW_OUT => 5
  | GIFT_OPEN => 6
  end.

(** ** The life timer (geminiService.ts lines 105-128, App.tsx lines 31-54) *)

Module LifeTimer.

(** The four fields of the display. *)
Record Parts : Type := mkParts { hours : Z; mins : Z; secs : Z; msecs : Z }.

(** The interval callback on [diff = now - startDate], in milliseconds.
    [%] is the remainder with the sign of the dividend ([Z.rem]);
    [Math.floor] of a quotient by a positive constant is [Z.div]. *)
Definition split (diff : Z) : Parts :=
  mkParts (diff / (1000 * 60 * 60))
          (Z.rem diff (1000 * 60 * 60) / (1000 * 60))
          (Z.rem diff (1000 * 60) / 1000)
          (Z.rem diff 1000).

(** [n.toString()] for an integer. *)
Definition toString (n : Z) : string :=
  NilEmpty.string_of_int (Z.to_int n).

(** [pad] repeated and cut to [n] characters. *)
Fixpoint fill (fuel : nat) (n : nat) (pad : string) : string :=
  match fuel with
  | O => EmptyString
  | S fuel' =>
      if (n <=? String.length pad)%nat then String.substring 0 n pad
      else String.append pad (fill fuel' (n - String.length pad) pad)
  end.

(** [s.padStart(target, pad)]. *)
Definition padStart (target : nat) (pad : string) (s : string) : string :=
  if (target <=? String.length s)%nat then s
  else if (String.length pad =? 0)%nat then s
  else String.append (fill target (target - String.length s) pad) s.

(** The milliseconds field: [msecs.toString().padStart(3, '0')]. *)
Definition msecsField (diff : Z) : string :=
  padStart 3 "0" (toString (msecs (split diff))).

(** Reading a field back as a decimal number. *)
Definition readDecimal (s : string) : option Z :=
  option_map Z.of_int (NilZero.int_of_string s).

End LifeTimer.

(** ** The typewriter (geminiService.ts lines 82-103, App.tsx lines 14-29) *)

Module Typewriter.

Section Chars.

(** The code units of a string. *)
Variable Char : Type.
Variable Char_eq_dec : forall a b : Char, {a = b} + {a <> b}.

(** [displayedText] and [index], and the [text] prop of the last render. *)
Record Widget : Type := mkWidget {
  text : list Char;
  displayedText : list Char;
  index : nat
}.

(** The component as mounted with a text. *)
Definition mount (t : list Char) : Widget := mkWidget t [] 0.

(** The timeout of the second effect fires: it was scheduled only under
    [index < text.length], and appends [text[index]]. *)
Definition fire (w : Widget) : Widget :=
  if (index w <? length (text w))%nat then
    match nth_error (text w) (index w) with
    | Some c => mkWidget (text w) (displayedText w ++ [c]) (index w + 1)
    | None => w
    end
  else w.

(** A render with the prop [t], in geminiService.ts: the effect on
    [[text]] runs when the text differs from the last one and resets. *)
Definition setTextReset (t : list Char) (w : Widget) : Widget :=
  if list_eq_dec Char_eq_dec t (text w) then w
  else mkWidget t [] 0.

(** A render with the prop [t], in App.tsx: there is no such effect. *)
Definition setTextKeep (t : list Char) (w : Widget) : Widget :=
  mkWidget t (displayedText w) (index w).

(** [n] timeouts in a row. *)
Fixpoint fires (n : nat) (w : Widget) : Widget :=
  match n with
  | O => w
  | S n' => fires n' (fire w)
  end.

End Chars.

Arguments text {Char} w.
Arguments displayedText {Char} w.
Arguments index {Char} w.
Arguments mkWidget {Char} text displayedText index.
Arguments mount {Char} t.
Arguments fire {Char} w.
Arguments fires {Char} n w.
Arguments setTextReset {Char} Char_eq_dec t w.
Arguments setTextKeep {Char} t w.

End Typewriter.

(** ** Values that come out of [JSON.parse] and the network *)

#[warnings="-register-all"]
Inductive JsValue : Type :=
| JUndefined
| JNull
| JBool (b : bool)
| JNumber (q : Q)
| JString (s : string)
| JArray (items : list JsValue)
| JObject (fields : list (string * JsValue)).

(** Truthiness: [undefined], [null], [false], [0] and [""] are falsy. *)
Definition truthyValue (v : JsValue) : bool :=
  match v with
  | JUndefined | JNull => false
  | JBool b => b
  | JNumber q => negb (Qeq_bool q 0)
  | JString s => negb (String.eqb s "")
  | JArray _ | JObject _ => true
  end.

Fixpoint lookupField (k : string) (fields : list (string * JsValue)) : JsValue :=
  match fields with
  | [] => JUndefined
  | (k', v) :: rest => if String.eqb k k' then v else lookupField k rest
  end.

(** [v.k] for a key that is no built-in property: a [TypeError] on
    [null] and [undefined], [undefined] on the other primitives. *)
Definition getProp (v : JsValue) (k : string) : Outcome JsValue :=
  match v with
  | JUndefined | JNull => Throw TypeError
  | JObject fields => Ok (lookupField k fields)
  | _ => Ok JUndefined
  end.

(** [typeof v === "string"]. *)
Definition isString (v : JsValue) : bool :=
  match v with
  | JString _ => true
  | _ => false
  end.

(** [v && typeof v.message === "string" && typeof v.author === "string"]. *)
Definition validGreeting (v : JsValue) : Outcome bool :=
  if truthyValue v then
    m <- getProp v "message" ;;
    if isString m then
      a <- getProp v "author" ;;
      Ok (isString a)
    else Ok false
  else Ok false.

(** A promise that has settled. *)
Inductive Settled (A : Type) : Type :=
| Resolved (a : A)
| Rejected.

Arguments Resolved {A} a.
Arguments Rejected {A}.

(** ** [generateLuxuryGreeting] through the SDK (geminiService.ts lines 1-70) *)

Module GeminiService.

(** What [ai.models.generateContent] does: it rejects, or resolves with a
    response whose [text] may be [undefined]. *)
Inductive ApiResult : Type :=
| ApiError
| ApiResponse (text : option string).

Definition placeholder : JsValue :=
  JObject [("message"%string,
            JString "十七岁的星辰正在生成之中，愿你在未来的维度里优雅觉醒。");
           ("author"%string, JString "系统占位祝辞")].

(** The double quote. *)
Definition dq : string := String (Ascii.ascii_of_nat 34) EmptyString.

(** The JSON text used when the response has no text. *)
Definition defaultJson : string :=
  String.concat dq
    ["{"; "message"; ":"; "十七岁的星辰，已在你的数字基因中觉醒，愿你征服永恒的维度。";
     ","; "author"; ":"; "以太协议"; "}"]%string.

Definition errorGreeting : JsValue :=
  JObject [("message"%string,
            JString "十七岁的生命波形已达到巅峰共振，愿你在无限的可能中重塑未来。");
           ("author"%string, JString "寰宇核心")].

Section Codec.

(** [JSON.parse]: [None] is a [SyntaxError]. *)
Variable JSON_parse : string -> option JsValue.
(** [String.prototype.trim]. *)
Variable trim : string -> string.

(** [response.text?.trim() || default]. *)
Definition jsonText (text : option string) : string :=
  match text with
  | Some s => if String.eqb (trim s) "" then defaultJson else trim s
  | None => defaultJson
  end.

(** [apiKey] is [import.meta.env.VITE_GEMINI_API_KEY]; [getClient] gives
    [null] when it is [undefined] or empty.  [api] is what the SDK call
    does if it is made. *)
Definition generateLuxuryGreeting (apiKey : option string) (api : ApiResult)
  : Settled JsValue :=
  match apiKey with
  | None => Resolved placeholder
  | Some key =>
      if String.eqb key "" then Resolved placeholder
      else
        match api with
        | ApiError => Resolved errorGreeting
        | ApiResponse text =>
            match JSON_parse (jsonText text) with
            | Some v => Resolved v
            | None => Resolved errorGreeting
            end
        end
  end.

End Codec.

End GeminiService.

(** ** [generateLuxuryGreeting] through the proxy (src/unnamed/part_000) *)

Module ProxyService.

(** What [fetch] and [resp.json()] do: the request fails, or a response
    arrives with its [ok] flag and a body that parses ([Some]) or not. *)
Inductive FetchResult : Type :=
| FetchFailed
| FetchResponse (ok : bool) (body : option JsValue).

Section Conversion.

(** [String(v)]. *)
Variable toStr : JsValue -> string.

(** [String(data.text ?? "")]. *)
Definition messageOf (text : JsValue) : string :=
  match text with
  | JUndefined | JNull => ""%string
  | JString s => s
  | v => toStr v
  end.

Definition generateLuxuryGreeting (r : FetchResult) : Settled JsValue :=
  match r with
  | FetchFailed => Rejected
  | FetchResponse ok body =>
      match body with
      | None => Rejected
      | Some data =>
          if negb ok then Rejected
          else
            match getProp data "text" with
            | Throw _ => Rejected
            | Ok text =>
                Resolved (JObject [("message"%string, JString (messageOf text));
                                   ("author"%string, JString "Gemini via Supabase")])
            end
      end
  end.

End Conversion.

End ProxyService.

(** ** [handleInitialize] *)

Module Init.

(** What the handler did to the outside, in order. *)
Inductive Call : Type :=
| ProviderCalled
| InitMicCalled
| ItemSet (s : string)
| ItemRemoved.

Definition isInitMic (c : Call) : bool :=
  match c with
  | InitMicCalled => true
  | _ => false
  end.


(** The component state the handler writes, the entry of
    [GREETING_CACHE_KEY] in [localStorage], and the calls made. *)
Record World (M : Type) : Type := mkWorld {
  machine : M;
  greeting : option JsValue;
  cache : option string;
  calls : list Call
}.

Arguments mkWorld {M} machine greeting cache calls.
Arguments machine {M} w.
Arguments greeting {M} w.
Arguments cache {M} w.
Arguments calls {M} w.

Definition setGreeting {M : Type} (g : JsValue) (w : World M) : World M :=
  mkWorld (machine w) (Some g) (cache w) (calls w).

Definition removeItem {M : Type} (w : World M) : World M :=
  mkWorld (machine w) (greeting w) None (calls w ++ [ItemRemoved]).

Definition setItem {M : Type} (s : string) (w : World M) : World M :=
  mkWorld (machine w) (greeting w) (Some s) (calls w ++ [ItemSet s]).

Definition callProvider {M : Type} (w : World M) : World M :=
  mkWorld (machine w) (greeting w) (cache w) (calls w ++ [ProviderCalled]).

Definition fallback : JsValue :=
  JObject [("message"%string,
            JString "（AI 核心暂时离线）愿你仍能在星尘中保持平和与勇气。生日快乐。");
           ("author"%string, JString "LOCAL_FALLBACK")].

(** *** geminiService.ts lines 357-394 *)

Section Hardened.

Variable JSON_parse : string -> option JsValue.
Variable JSON_stringify : JsValue -> string.

Definition World_h : Type := World Hysteresis.Machine.

(** [initMic()], with the outcome of the microphone request. *)
Definition startMic (granted : bool) (w : World_h) : World_h :=
  mkWorld (Hysteresis.initMic granted (machine w)) (greeting w) (cache w)
          (calls w ++ [InitMicCalled]).

(** The second [try] block.  [provider] is how the promise of
    [generateLuxuryGreeting] settles; [quotaOk] tells whether
    [localStorage.setItem] returns rather than throws. *)
Definition fetchGreeting (provider : Settled JsValue) (quotaOk granted : bool)
  (w : World_h) : World_h :=
  let w1 := callProvider w in
  match provider with
  | Rejected => startMic granted (setGreeting fallback w1)
  | Resolved result =>
      match validGreeting result with
      | Ok true =>
          let w2 := setGreeting result w1 in
          if quotaOk then startMic granted (setItem (JSON_stringify result) w2)
          else startMic granted (setGreeting fallback w2)
      | Ok false => startMic granted (setGreeting fallback w1)
      | Throw _ => startMic granted (setGreeting fallback w1)
      end
  end.

(** The handler on the paths where [localStorage.getItem] and
    [removeItem] return; [InitStore.handleInitialize] below adds the paths
    where they throw. *)
Definition handleInitialize (provider : Settled JsValue) (quotaOk granted : bool)
  (w : World_h) : World_h :=
  match cache w with
  | None => fetchGreeting provider quotaOk granted w
  | Some cached =>
      if String.eqb cached "" then fetchGreeting provider quotaOk granted w
      else
        match JSON_parse cached with
        | None => fetchGreeting provider quotaOk granted (removeItem w)
        | Some parsed =>
            match validGreeting parsed with
            | Ok true => startMic granted (setGreeting parsed w)
            | _ => fetchGreeting provider quotaOk granted (removeItem w)
            end
        end
  end.

End Hardened.

(** *** App.tsx lines 214-218 *)

Definition World_a : Type := World AppTsx.Machine.

Definition startMic_a (granted : bool) (w : World_a) : World_a :=
  mkWorld (AppTsx.initMic granted (machine w)) (greeting w) (cache w)
          (calls w ++ [InitMicCalled]).

(** A rejected promise ends the handler at the [await]. *)
Definition handleInitialize_a (provider : Settled JsValue) (granted : bool)
  (w : World_a) : World_a :=
  let w1 := callProvider w in
  match provider with
  | Rejected => w1
  | Resolved result => startMic_a granted (setGreeting result w1)
  end.

End Init.

(** ** [handleInitialize] when the store may refuse *)

Module InitStore.

Section Store.

Variable JSON_parse : string -> option JsValue.
Variable JSON_stringify : JsValue -> string.

(** geminiService.ts lines 357-394 with the calls of [localStorage] that
    can throw outside the second [try]: [getItemOk] tells whether
    [getItem] (line 364, under no [try]) returns, and [removeItemOk n]
    whether the [n]-th call of [removeItem] does.  A [removeItem] that
    throws inside the first [try] (line 373) is caught by its [catch] arm,
    which calls [removeItem] again (line 376); a throw there, like one of
    [getItem], ends the handler before [setGreeting] and [initMic]:
    [Rejected].  When the handler goes on, it does what
    [Init.handleInitialize] does. *)
Definition handleInitialize (getItemOk : bool) (removeItemOk : nat -> bool)
  (provider : Settled JsValue) (quotaOk granted : bool) (w : Init.World_h)
  : Settled Init.World_h :=
  let goOn :=
    Resolved (Init.handleInitialize JSON_parse JSON_stringify
                provider quotaOk granted w) in
  if negb getItemOk then Rejected
  else
    match Init.cache w with
    | None => goOn
    | Some cached =>
        if String.eqb cached "" then goOn
        else
          match JSON_parse cached with
          | None => if removeItemOk 0%nat then goOn else Rejected
          | Some parsed =>
              match validGreeting parsed with
              | Ok true => goOn
              | _ =>
                  if removeItemOk 0%nat then goOn
                  else if removeItemOk 1%nat then goOn
                  else Rejected
              end
          end
    end.

End Store.

End InitStore.

(** *** A store format for the examples *)

(** Every greeting is written as the one letter g, and that letter reads
    back as the local fallback; anything else does not parse. *)
Definition toyParse (s : string) : option JsValue :=
  if String.eqb s "g" then Some Init.fallback else None.

Definition toyStringify (v : JsValue) : string := "g"%string.

(** * Properties *)

(** ** Arithmetic of the quotients *)

Lemma Qdiv_inject_le (a b t : Z) :
  0 < b -> ((inject_Z a / inject_Z b <= inject_Z t)%Q <-> a <= t * b).
Proof.
  intros Hb. destruct b as [|p|p]; try lia.
  unfold Qle, Qdiv, Qmult, Qinv, inject_Z; simpl.
  lia.
Qed.

Lemma Qred_le_inject (q : Q) (t : Z) :
  (Qred q <= inject_Z t)%Q <-> (q <= inject_Z t)%Q.
Proof.
  split; intros H.
  - apply Qle_trans with (Qred q); [|assumption].
    apply Qle_lteq. right. symmetry. apply Qred_correct.
  - apply Qle_trans with q; [|assumption].
    apply Qle_lteq. right. apply Qred_correct.
Qed.

Lemma js_div_pos (a b : Z) :
  0 < b -> js_div a b = Fin (Qred (inject_Z a / inject_Z b)).
Proof.
  intros Hb. unfold js_div.
  destruct (Z.eqb_spec b 0); [lia | reflexivity].
Qed.

Lemma num_gt_js_div (a b t : Z) :
  0 < b -> num_gt (js_div a b) t = (t * b <? a).
Proof.
  intros Hb. rewrite js_div_pos by assumption. unfold num_gt.
  destruct (Qle_bool _ _) eqn:E; cbn [negb].
  - apply Qle_bool_iff in E. apply (proj1 (Qred_le_inject _ _)) in E.
    apply (proj1 (Qdiv_inject_le a b t Hb)) in E.
    symmetry. apply Z.ltb_ge. assumption.
  - symmetry. apply Z.ltb_lt.
    destruct (Z.lt_ge_cases (t * b) a) as [H|H]; [assumption|].
    assert (Qle_bool (Qred (inject_Z a / inject_Z b)) (inject_Z t) = true) as E'.
    { apply Qle_bool_iff. apply (proj2 (Qred_le_inject _ _)). apply (proj2 (Qdiv_inject_le a b t Hb)). assumption. }
    congruence.
Qed.

Lemma bin_range (b : byte) : 0 <= bin b <= 255.
Proof.
  unfold bin. pose proof (Byte.to_N_bounded b). lia.
Qed.

Lemma fold_sum_shift (l : Frame) (acc : Z) :
  fold_left (fun a b => a + bin b) l acc = acc + reduceSum0 l.
Proof.
  unfold reduceSum0. revert acc.
  induction l as [|b l IH]; intros acc; simpl.
  - lia.
  - rewrite IH. rewrite (IH (bin b)). lia.
Qed.

Lemma reduceSum0_cons (b : byte) (l : Frame) :
  reduceSum0 (b :: l) = bin b + reduceSum0 l.
Proof.
  unfold reduceSum0 at 1. simpl. apply fold_sum_shift.
Qed.

Lemma reduceSum0_bounds (l : Frame) :
  0 <= reduceSum0 l <= 255 * Z.of_nat (length l).
Proof.
  induction l as [|b l IH].
  - simpl. unfold reduceSum0. simpl. lia.
  - rewrite reduceSum0_cons. pose proof (bin_range b).
    cbn [length]. lia.
Qed.

(** The hit test in integers: the sum of the first 15 bins above 825, or
    the sum of all bins above 55 times their number. *)
Lemma isHit_integers (f : Frame) :
  Hysteresis.isHit f =
  (825 <? reduceSum0 (firstn 15 f)) ||
  ((0 <? Z.of_nat (length f)) && (55 * Z.of_nat (length f) <? reduceSum0 f)).
Proof.
  unfold Hysteresis.isHit, slice0, lowFreqBins, blowThreshold.
  rewrite num_gt_js_div by lia.
  change (55 * Z.of_nat 15) with 825. f_equal.
  destruct (Z.ltb_spec 0 (Z.of_nat (length f))) as [Hlen|Hlen].
  - rewrite num_gt_js_div by assumption. reflexivity.
  - destruct f; [|cbn [length] in Hlen; lia]. reflexivity.
Qed.

(** The hit test of the loop against the two means, for frames of any
    length: with fewer than 15 bins the slice is the whole frame and
    [sum / 15 > 55] implies [sum / length > 55]. *)
Lemma isHit_iff_specHit (f : Frame) :
  Hysteresis.isHit f = true <-> specHit f.
Proof.
  rewrite isHit_integers. unfold specHit, mean.
  destruct (Nat.le_gt_cases 15 (length f)) as [Hlen|Hlen].
  - rewrite firstn_length_le by assumption.
    rewrite num_gt_js_div by lia. change (55 * Z.of_nat 15) with 825.
    rewrite num_gt_js_div by lia.
    rewrite orb_true_iff, andb_true_iff, !Z.ltb_lt. intuition lia.
  - rewrite firstn_all2 by lia.
    destruct f as [|b f].
    + simpl. intuition discriminate.
    + assert (0 < Z.of_nat (length (b :: f))) by (cbn [length]; lia).
      rewrite num_gt_js_div by assumption.
      pose proof (reduceSum0_bounds (b :: f)).
      rewrite orb_true_iff, andb_true_iff, !Z.ltb_lt. lia.
Qed.

Arguments js_div : simpl never.

Lemma Qdiv_inject_le_one (e D : Z) :
  0 < D -> ((inject_Z e / inject_Z D <= 1)%Q <-> e <= D).
Proof.
  intros HD. change 1%Q with (inject_Z 1).
  rewrite Qdiv_inject_le by assumption. lia.
Qed.

Lemma progress_value (e D : Z) :
  0 < D -> e <= D ->
  Math_min (js_div e D) (Fin 1) = Fin (Qred (inject_Z e / inject_Z D)).
Proof.
  intros HD He. rewrite js_div_pos by assumption. unfold Math_min.
  assert (Qle_bool (Qred (inject_Z e / inject_Z D)) 1 = true) as ->; [|reflexivity].
  apply Qle_bool_iff. change 1%Q with (inject_Z 1).
  apply (proj2 (Qred_le_inject _ _)). apply Qdiv_inject_le; lia.
Qed.

Lemma progress_one_iff (e D : Z) :
  0 < D -> e <= D ->
  (Math_min (js_div e D) (Fin 1) = Fin 1 <-> e = D).
Proof.
  intros HD He. rewrite progress_value by assumption. split.
  - intros H.
    apply (f_equal (fun n => match n with Fin q => q | _ => 0%Q end)) in H.
    cbv beta iota in H.
    assert (inject_Z e / inject_Z D == 1)%Q as Hc.
    { rewrite <- H. symmetry. apply Qred_correct. }
    destruct D as [|p|p]; try lia.
    unfold Qeq, Qdiv, Qmult, Qinv, inject_Z in Hc; simpl in Hc. lia.
  - intros ->. f_equal.
    change 1%Q with (Qred 1). apply Qred_complete.
    destruct D as [|p|p]; try lia.
    unfold Qeq, Qdiv, Qmult, Qinv, inject_Z; simpl. lia.
Qed.

Lemma progress_mono (e1 e2 D : Z) :
  0 < D -> e1 <= e2 -> e2 <= D ->
  num_le (Math_min (js_div e1 D) (Fin 1)) (Math_min (js_div e2 D) (Fin 1)).
Proof.
  intros HD H12 H2. rewrite !progress_value by lia. unfold num_le.
  apply Qle_trans with (inject_Z e1 / inject_Z D)%Q.
  { apply Qle_lteq. right. apply Qred_correct. }
  apply Qle_trans with (inject_Z e2 / inject_Z D)%Q.
  2:{ apply Qle_lteq. right. symmetry. apply Qred_correct. }
  destruct D as [|p|p]; try lia.
  unfold Qle, Qdiv, Qmult, Qinv, inject_Z; simpl. nia.
Qed.

(** ** The loop of geminiService.ts, step by step *)

Import Hysteresis.

Lemma DURATIONS_timed (s : ExperienceState) (D : Z) :
  DURATIONS s = Some (Ms D) ->
  (s = COUNTDOWN /\ D = 3000) \/ (s = MORPH_CAKE /\ D = 4000) \/
  (s = BLOW_OUT /\ D = 2000).
Proof.
  destruct s; simpl; intros H; inversion H; auto.
Qed.

Lemma lookupDuration_timed (s : ExperienceState) (D : Z) :
  DURATIONS s = Some (Ms D) -> lookupDuration s = Ms D /\ 0 < D.
Proof.
  intros H. destruct (DURATIONS_timed s D H) as [[-> ->]|[[-> ->]|[-> ->]]];
    split; reflexivity || lia.
Qed.

Lemma timeoutStep_timed (m : Machine) (now D : Z) :
  DURATIONS (state m) = Some (Ms D) ->
  timeoutStep m now =
  if D <? now - lastStateTimeRef m then
    mkMachine (nextOnTimeout (state m)) (Fin 0) (micActive m) (analyserRef m)
              now 0 (lastTriggerAtRef m)
  else
    mkMachine (state m)
              (Math_min (js_div (now - lastStateTimeRef m) D) (Fin 1))
              (micActive m) (analyserRef m)
              (lastStateTimeRef m) (blowHitFramesRef m) (lastTriggerAtRef m).
Proof.
  intros H. unfold timeoutStep.
  destruct (lookupDuration_timed _ _ H) as [-> _]. reflexivity.
Qed.

Lemma timeoutStep_untimed (m : Machine) (now : Z) :
  DURATIONS (state m) = None ->
  timeoutStep m now =
  if 0 <? now - lastStateTimeRef m then
    mkMachine (state m) (Fin 0) (micActive m) (analyserRef m)
              now 0 (lastTriggerAtRef m)
  else
    mkMachine (state m)
              (Math_min (js_div (now - lastStateTimeRef m) 0) (Fin 1))
              (micActive m) (analyserRef m)
              (lastStateTimeRef m) (blowHitFramesRef m) (lastTriggerAtRef m).
Proof.
  intros H. unfold timeoutStep, lookupDuration. rewrite H.
  destruct (state m); simpl in H; try discriminate; reflexivity.
Qed.

Lemma timeoutStep_unbounded (m : Machine) (now : Z) :
  DURATIONS (state m) = Some Infinity -> timeoutStep m now = m.
Proof.
  intros H. unfold timeoutStep, lookupDuration. rewrite H. reflexivity.
Qed.

(** The timeout branch never touches the microphone fields or the time of
    the last trigger. *)
Lemma timeoutStep_frame (m : Machine) (now : Z) :
  micActive (timeoutStep m now) = micActive m /\
  analyserRef (timeoutStep m now) = analyserRef m /\
  lastTriggerAtRef (timeoutStep m now) = lastTriggerAtRef m.
Proof.
  unfold timeoutStep.
  destruct (notInfinity _ && exceeds _ _); [|destruct (notInfinity _)];
    repeat split.
Qed.

Lemma audioStep_cases (st : ExperienceState) (m : Machine) (t : Tick) :
  exists m', audioStep st m t = Ok m' /\ AudioCase st m t m'.
Proof.
  destruct m as [s p mic [a|] lst hits ltr]; unfold audioStep;
    cbn [analyserRef micActive truthy andb deref bind].
  2:{ eexists; split; [reflexivity|]. apply audio_off. reflexivity. }
  destruct mic.
  2:{ eexists; split; [reflexivity|]. apply audio_off. reflexivity. }
  match goal with
  | |- context [if ?c then _ else _] => destruct c eqn:T
  end.
  - destruct st; eexists; (split; [reflexivity|]);
      first [ apply audio_triggered; auto; fail
            | apply audio_counted; auto; right; split; discriminate ].
  - eexists; split; [reflexivity|]. apply audio_counted; auto.
Qed.

(** Every call of [update] returns, and its audio block is in one of the
    three cases. *)
Lemma update_cases (m : Machine) (t : Tick) :
  exists m', update m t = Ok m' /\
             AudioCase (state m) (timeoutStep m (now t)) t m'.
Proof. unfold update. apply audioStep_cases. Qed.

Lemma countFrame_from_zero (hit : bool) : 0 <= countFrame hit 0 <= 1.
Proof. destruct hit; simpl; lia. Qed.

Lemma countFrame_nonneg (hit : bool) (n : Z) : 0 <= n -> 0 <= countFrame hit n.
Proof. destruct hit; unfold countFrame; lia. Qed.

(** In a state without a table entry a call whose clock has moved on
    leaves the state alone. *)
Lemma update_untimed (m : Machine) (t : Tick) :
  DURATIONS (state m) = None ->
  0 < now t - lastStateTimeRef m ->
  exists m', update m t = Ok m' /\ state m' = state m /\
             lastStateTimeRef m' = now t /\ progress m' = Fin 0 /\
             0 <= blowHitFramesRef m' <= 1.
Proof.
  intros Hd He.
  destruct (update_cases m t) as [m' [Hu Hc]].
  exists m'. split; [assumption|].
  rewrite (timeoutStep_untimed m (now t) Hd) in Hc.
  destruct (Z.ltb_spec 0 (now t - lastStateTimeRef m)); [|lia].
  inversion Hc as [G | G T | G T S]; subst; cbn in *.
  - repeat split; lia.
  - pose proof (countFrame_from_zero (isHit (frame t))).
    unfold hitsAtGate; cbn. repeat split; lia.
  - apply andb_prop in T as [_ T]. unfold hitsAtGate, shouldTrigger in T; cbn in T.
    pose proof (countFrame_from_zero (isHit (frame t))).
    apply Z.leb_le in T. unfold requiredFrames in T. lia.
Qed.

(** X7.  With a clock that moves on between calls, no sequence of frames takes
    the machine out of LISTENING. *)
Lemma listening_stays (ticks : list Tick) (m : Machine) :
  state m = LISTENING ->
  clockAdvances (lastStateTimeRef m) ticks ->
  exists m', run m ticks = Ok m' /\ state m' = LISTENING.
Proof.
  revert m. induction ticks as [|t rest IH]; intros m Hs Hc.
  - exists m. split; [reflexivity | assumption].
  - destruct Hc as [Hlt Hrest].
    destruct (update_untimed m t) as [m1 [Hu [Hs1 [Hl1 _]]]].
    { rewrite Hs. reflexivity. }
    { lia. }
    cbn [run]. rewrite Hu. cbn [bind].
    apply IH; [congruence | rewrite Hl1; assumption].
Qed.

(** X8.  A timeout that changes the state resets the origin, progress and the
    counter. *)
Lemma timeout_transition_resets (m : Machine) (now : Z) :
  state (timeoutStep m now) <> state m ->
  lastStateTimeRef (timeoutStep m now) = now /\
  progress (timeoutStep m now) = Fin 0 /\
  blowHitFramesRef (timeoutStep m now) = 0.
Proof.
  unfold timeoutStep.
  destruct (notInfinity _ && exceeds _ _).
  - intros _. repeat split.
  - destruct (notInfinity _); cbn; intros H; congruence.
Qed.

(** X9.  An audio trigger that changes the state resets the origin and the
    counter and records the trigger time; it does not write progress. *)
Lemma audio_transition_resets (st : ExperienceState) (m m' : Machine) (t : Tick) :
  audioStep st m t = Ok m' ->
  state m' <> state m ->
  lastStateTimeRef m' = now t /\ blowHitFramesRef m' = 0 /\
  lastTriggerAtRef m' = now t /\ progress m' = progress m.
Proof.
  intros Hu Hne.
  destruct (audioStep_cases st m t) as [m2 [Hu2 Hc]].
  rewrite Hu in Hu2. injection Hu2 as <-.
  inversion Hc; subst; cbn in *; try congruence. repeat split.
Qed.

(** Within the cooldown (at most 900 ms since the last trigger) the audio
    block changes neither the state nor the trigger time. *)
Lemma cooldown_blocks_trigger (m : Machine) (t : Tick) :
  now t - lastTriggerAtRef m <= cooldownMs ->
  exists m', update m t = Ok m' /\
             state m' = state (timeoutStep m (now t)) /\
             lastTriggerAtRef m' = lastTriggerAtRef m.
Proof.
  intros Hc. destruct (update_cases m t) as [m' [Hu Ha]].
  destruct (timeoutStep_frame m (now t)) as [_ [_ Ft]].
  exists m'. split; [assumption|].
  inversion Ha as [G | G T | G T S]; subst; cbn; auto.
  apply andb_prop in T as [T _]. unfold canTrigger in T.
  rewrite Ft in T. apply Z.ltb_lt in T. lia.
Qed.

(** A call in a state the audio block does not act on: the state is the
    one the timeout branch chose. *)
Lemma update_ungated (m : Machine) (t : Tick) :
  state m <> LISTENING -> state m <> CANDLES_LIT ->
  exists m', update m t = Ok m' /\
             state m' = state (timeoutStep m (now t)) /\
             progress m' = progress (timeoutStep m (now t)) /\
             lastStateTimeRef m' = lastStateTimeRef (timeoutStep m (now t)).
Proof.
  intros H1 H2. destruct (update_cases m t) as [m' [Hu Hc]].
  exists m'. split; [assumption|].
  inversion Hc as [G | G T | G T S]; subst; cbn; auto.
  destruct S; contradiction.
Qed.

(** ** The loop of App.tsx *)

(** On a frame with at least one bin the two variants compute the same
    hit test; on an empty one the variant of App.tsx throws. *)
Lemma AppTsx_isHit_nonempty (b : byte) (f : Frame) :
  AppTsx.isHit (b :: f) = Ok (Hysteresis.isHit (b :: f)).
Proof. reflexivity. Qed.

Lemma specHit_nonempty (f : Frame) : specHit f -> f <> [].
Proof.
  intros [H|H] ->; vm_compute in H; discriminate.
Qed.

Lemma AppTsx_isHit_specHit (f : Frame) :
  specHit f -> AppTsx.isHit f = Ok true.
Proof.
  intros H. pose proof (specHit_nonempty f H) as Hne.
  destruct f as [|b f]; [congruence|].
  rewrite AppTsx_isHit_nonempty. f_equal.
  apply isHit_iff_specHit. assumption.
Qed.

Lemma AppTsx_timeoutStep_gated (m : AppTsx.Machine) (now : Z) :
  AppTsx.state m = LISTENING \/ AppTsx.state m = CANDLES_LIT ->
  AppTsx.state (AppTsx.timeoutStep m now) = AppTsx.state m /\
  AppTsx.micActive (AppTsx.timeoutStep m now) = AppTsx.micActive m /\
  AppTsx.analyserRef (AppTsx.timeoutStep m now) = AppTsx.analyserRef m.
Proof.
  intros [Hs|Hs]; unfold AppTsx.timeoutStep; rewrite Hs; cbn.
  - destruct (0 <? now - AppTsx.lastStateTimeRef m); cbn; auto.
  - auto.
Qed.

(** ** The claims *)

(** C1 (the code at the failing input).  After the microphone is granted,
    64 loud frames 16 ms apart (1024 ms of blowing) all pass the hit test,
    yet the state after every one of them is LISTENING and the counter read
    by the trigger gate is 1 each time: the transition to COUNTDOWN that the
    claim expects within the first six frames never happens. *)
Theorem C1_sustained_blow_leaves_listening :
  let m := initMic true (mount 1000) in
  let ticks := ticksEvery 16 1016 (repeat loud 64) in
  forallb (fun t => isHit (frame t)) ticks = true /\
  stateTrace m ticks = repeat LISTENING 64 /\
  gateTrace m ticks = repeat 1 64.
Proof.
  vm_compute. repeat split.
Qed.

(** C2 (the code at the failing input).  Six loud frames that share one
    clock value take the machine from LISTENING to COUNTDOWN by the audio
    trigger; the transition sets the elapsed-time origin and clears the
    counter, but the progress value is left as it was ([NaN] here), not 0.
    The same from CANDLES_LIT with a progress of one half. *)
Theorem C2_audio_trigger_keeps_progress :
  let m0 := initMic true (mount 1000) in
  (exists m5 m6,
      run m0 (ticksEvery 0 2000 (repeat loud 5)) = Ok m5 /\
      state m5 = LISTENING /\
      update m5 (mkTick 2000 loud) = Ok m6 /\
      state m6 = COUNTDOWN /\
      lastStateTimeRef m6 = 2000 /\ blowHitFramesRef m6 = 0 /\
      progress m6 = NaN /\ progress m6 <> Fin 0) /\
  (exists m',
      update (mkMachine CANDLES_LIT (Fin (1 # 2)) true (Some (mkAnalyser 512))
                        8000 5 1000)
             (mkTick 9000 loud) = Ok m' /\
      state m' = BLOW_OUT /\
      lastStateTimeRef m' = 9000 /\ blowHitFramesRef m' = 0 /\
      progress m' = Fin (1 # 2) /\ progress m' <> Fin 0).
Proof.
  split.
  - do 2 eexists. split; [vm_compute; reflexivity|].
    split; [reflexivity|]. split; [vm_compute; reflexivity|].
    cbn. repeat split. discriminate.
  - eexists. split; [vm_compute; reflexivity|].
    cbn. repeat split. discriminate.
Qed.

(** C3 (counterexample).  COUNTDOWN entered at 1000 with duration 3000: the
    call at elapsed time 2990 sets progress to 299/300; the next call, at
    elapsed time 3006 >= 3000, is already the transition to MORPH_CAKE with
    progress 0.  Progress was never 1, and the transition did not wait for
    a call after it. *)
Lemma C3_progress_never_reaches_one :
  let m := mkMachine COUNTDOWN (Fin 0) false None 1000 0 0 in
  exists m1 m2,
    update m (mkTick 3990 quiet) = Ok m1 /\
    state m1 = COUNTDOWN /\ progress m1 = Fin (299 # 300) /\
    update m1 (mkTick 4006 quiet) = Ok m2 /\
    lookupDuration COUNTDOWN = Ms 3000 /\
    3000 <= 4006 - lastStateTimeRef m1 /\
    state m2 = MORPH_CAKE /\ progress m2 = Fin 0 /\
    progress m1 <> Fin 1 /\ progress m2 <> Fin 1.
Proof.
  do 2 eexists. split; [vm_compute; reflexivity|].
  split; [reflexivity|]. split; [reflexivity|].
  split; [vm_compute; reflexivity|].
  cbn. repeat split; try lia; discriminate.
Qed.

(** C3 (amended).  In a state with table duration [D] milliseconds
    (COUNTDOWN, MORPH_CAKE, BLOW_OUT): a call with elapsed time at most [D]
    keeps the state and the origin and sets progress to
    [min(elapsed / D, 1)], which is 1 exactly when the elapsed time is [D]
    and does not decrease at a later such call; a call with elapsed time
    above [D] is itself the transition and sets progress to 0. *)
Theorem C3_progress_in_timed_state (m : Machine) (t : Tick) (D : Z) :
  DURATIONS (state m) = Some (Ms D) ->
  let elapsed := now t - lastStateTimeRef m in
  exists m', update m t = Ok m' /\
    (elapsed <= D ->
       state m' = state m /\
       lastStateTimeRef m' = lastStateTimeRef m /\
       progress m' = Math_min (js_div elapsed D) (Fin 1) /\
       (progress m' = Fin 1 <-> elapsed = D) /\
       forall t2, now t <= now t2 -> now t2 - lastStateTimeRef m' <= D ->
         exists m2, update m' t2 = Ok m2 /\ state m2 = state m /\
                    num_le (progress m') (progress m2)) /\
    (D < elapsed ->
       state m' = nextOnTimeout (state m) /\ state m' <> state m /\
       progress m' = Fin 0 /\ lastStateTimeRef m' = now t).
Proof.
  intros HD elapsed.
  assert (forall (m : Machine) (t : Tick),
           DURATIONS (state m) = Some (Ms D) ->
           exists m', update m t = Ok m' /\
             (now t - lastStateTimeRef m <= D ->
                state m' = state m /\
                lastStateTimeRef m' = lastStateTimeRef m /\
                progress m' = Math_min (js_div (now t - lastStateTimeRef m) D) (Fin 1)) /\
             (D < now t - lastStateTimeRef m ->
                state m' = nextOnTimeout (state m) /\ state m' <> state m /\
                progress m' = Fin 0 /\ lastStateTimeRef m' = now t)) as Hstep.
  { clear. intros m t HD.
    destruct (update_cases m t) as [m' [Hu Hc]].
    exists m'. split; [assumption|].
    rewrite (timeoutStep_timed m (now t) D HD) in Hc.
    assert (state m <> LISTENING /\ state m <> CANDLES_LIT) as [Hn1 Hn2].
    { destruct (DURATIONS_timed _ _ HD) as [[-> _]|[[-> _]|[-> _]]];
        split; discriminate. }
    assert (nextOnTimeout (state m) <> state m) as Hnext.
    { destruct (DURATIONS_timed _ _ HD) as [[-> _]|[[-> _]|[-> _]]];
        discriminate. }
    destruct (Z.ltb_spec D (now t - lastStateTimeRef m)) as [Hlt|Hle];
      (split; [intros ?|intros ?]; try lia);
      inversion Hc as [G | G T | G T S]; subst; cbn;
      try (destruct S; contradiction); repeat split; auto. }
  destruct (Hstep m t HD) as [m' [Hu [Hkeep Hgo]]].
  exists m'. split; [assumption|]. split; [|exact Hgo].
  intros He. destruct (Hkeep He) as [Hs [Hl Hp]].
  destruct (lookupDuration_timed _ _ HD) as [_ Hpos].
  repeat split; try assumption.
  - rewrite Hp. apply progress_one_iff; assumption.
  - rewrite Hp. apply progress_one_iff; assumption.
  - intros t2 Hmono He2.
    assert (DURATIONS (state m') = Some (Ms D)) as HD' by (rewrite Hs; exact HD).
    destruct (Hstep m' t2 HD') as [m2 [Hu2 [Hkeep2 _]]].
    exists m2. split; [assumption|].
    destruct (Hkeep2 He2) as [Hs2 [_ Hp2]].
    split; [congruence|].
    rewrite Hp, Hp2, Hl. apply progress_mono; try assumption.
    + fold elapsed. unfold elapsed. lia.
    + rewrite <- Hl. assumption.
Qed.

(** The amended C3 at COUNTDOWN, halfway through its 3000 ms. *)
Lemma C3_progress_in_timed_state_witness :
  let m := mkMachine COUNTDOWN (Fin 0) true (Some (mkAnalyser 512)) 1000 0 0 in
  let t := mkTick 2500 loud in
  DURATIONS (state m) = Some (Ms 3000) /\
  exists m', update m t = Ok m' /\
    (1500 <= 3000 ->
       state m' = state m /\
       lastStateTimeRef m' = lastStateTimeRef m /\
       progress m' = Math_min (js_div 1500 3000) (Fin 1) /\
       (progress m' = Fin 1 <-> 1500 = 3000) /\
       forall t2, now t <= now t2 -> now t2 - lastStateTimeRef m' <= 3000 ->
         exists m2, update m' t2 = Ok m2 /\ state m2 = state m /\
                    num_le (progress m') (progress m2)) /\
    (3000 < 1500 ->
       state m' = nextOnTimeout (state m) /\ state m' <> state m /\
       progress m' = Fin 0 /\ lastStateTimeRef m' = now t).
Proof.
  split; [reflexivity|].
  apply (C3_progress_in_timed_state
           (mkMachine COUNTDOWN (Fin 0) true (Some (mkAnalyser 512)) 1000 0 0)
           (mkTick 2500 loud) 3000).
  reflexivity.
Defined.

(** C4.  COUNTDOWN goes to MORPH_CAKE exactly when its elapsed time
    exceeds 3000 ms, MORPH_CAKE to CANDLES_LIT exactly when it exceeds
    4000 ms, BLOW_OUT to GIFT_OPEN exactly when it exceeds 2000 ms, and
    otherwise these states stay; in CANDLES_LIT and GIFT_OPEN the timeout
    branch changes nothing whatever the elapsed time, GIFT_OPEN stays, and
    CANDLES_LIT is only ever left by the audio trigger. *)
Theorem C4_timed_sequence (m : Machine) (t : Tick) :
  let elapsed := now t - lastStateTimeRef m in
  exists m', update m t = Ok m' /\
    (state m = COUNTDOWN ->
       state m' = if 3000 <? elapsed then MORPH_CAKE else COUNTDOWN) /\
    (state m = MORPH_CAKE ->
       state m' = if 4000 <? elapsed then CANDLES_LIT else MORPH_CAKE) /\
    (state m = BLOW_OUT ->
       state m' = if 2000 <? elapsed then GIFT_OPEN else BLOW_OUT) /\
    (state m = CANDLES_LIT ->
       lookupDuration (state m) = Infinity /\
       timeoutStep m (now t) = m /\
       (state m' = CANDLES_LIT \/
        state m' = BLOW_OUT /\ micActive m = true /\
        requiredFrames <= hitsAtGate m (frame t) /\
        cooldownMs < now t - lastTriggerAtRef m)) /\
    (state m = GIFT_OPEN ->
       lookupDuration (state m) = Infinity /\
       timeoutStep m (now t) = m /\ state m' = GIFT_OPEN).
Proof.
  intros elapsed.
  destruct (update_cases m t) as [m' [Hu Hc]].
  exists m'. split; [assumption|].
  assert (forall D next,
            DURATIONS (state m) = Some (Ms D) ->
            nextOnTimeout (state m) = next ->
            state m' = if D <? elapsed then next else state m) as Htimed.
  { intros D next HD Hn.
    destruct (DURATIONS_timed _ _ HD) as [[Hs _]|[[Hs _]|[Hs _]]];
      (destruct (update_ungated m t) as [m2 [Hu2 [Hs2 _]]]; [congruence..|]);
      assert (m2 = m') as -> by congruence;
      rewrite Hs2, (timeoutStep_timed m (now t) D HD); fold elapsed;
      destruct (D <? elapsed); cbn; congruence. }
  split; [|split; [|split; [|split]]]; intros Hs.
  - rewrite (Htimed 3000 MORPH_CAKE) by (rewrite Hs; reflexivity).
    rewrite Hs. reflexivity.
  - rewrite (Htimed 4000 CANDLES_LIT) by (rewrite Hs; reflexivity).
    rewrite Hs. reflexivity.
  - rewrite (Htimed 2000 GIFT_OPEN) by (rewrite Hs; reflexivity).
    rewrite Hs. reflexivity.
  - split; [rewrite Hs; reflexivity|].
    split; [apply timeoutStep_unbounded; rewrite Hs; reflexivity|].
    rewrite (timeoutStep_unbounded m (now t)) in Hc by (rewrite Hs; reflexivity).
    inversion Hc as [G | G T | G T S]; subst; cbn; auto.
    right. rewrite Hs. split; [reflexivity|].
    apply andb_prop in G as [_ G]. apply andb_prop in T as [T1 T2].
    unfold canTrigger in T1. unfold shouldTrigger in T2.
    apply Z.ltb_lt in T1. apply Z.leb_le in T2. auto.
  - split; [rewrite Hs; reflexivity|].
    split; [apply timeoutStep_unbounded; rewrite Hs; reflexivity|].
    destruct (update_ungated m t) as [m2 [Hu2 [Hs2 _]]]; try congruence.
    assert (m2 = m') as -> by congruence.
    rewrite Hs2, (timeoutStep_unbounded m (now t)) by (rewrite Hs; reflexivity).
    assumption.
Qed.

(** C4 at COUNTDOWN, one millisecond past its duration. *)
Lemma C4_timed_sequence_witness :
  exists m',
    update (mkMachine COUNTDOWN (Fin 0) false None 1000 0 0) (mkTick 4001 quiet)
    = Ok m' /\ state m' = MORPH_CAKE.
Proof.
  destruct (C4_timed_sequence
              (mkMachine COUNTDOWN (Fin 0) false None 1000 0 0)
              (mkTick 4001 quiet)) as [m' [Hu [Hc _]]].
  exists m'. split; [exact Hu|]. exact (Hc eq_refl).
Defined.

(** ** The hit test against the words of the specification *)

Lemma reduceSum0_amplitudes (l : list byte) :
  reduceSum0 l = Z.of_nat (list_sum (map amplitude l)).
Proof.
  induction l as [|b l IH].
  - reflexivity.
  - rewrite reduceSum0_cons, IH.
    change (list_sum (map amplitude (b :: l)))
      with (amplitude b + list_sum (map amplitude l))%nat.
    rewrite Nat2Z.inj_add. f_equal.
    unfold bin, amplitude. rewrite Byte.to_nat_via_N, N_nat_Z. reflexivity.
Qed.

Lemma Qlt_inject_div (a b t : Z) :
  0 < b -> ((inject_Z t < inject_Z a / inject_Z b)%Q <-> t * b < a).
Proof.
  intros Hb. destruct b as [|p|p]; try lia.
  unfold Qlt, Qdiv, Qmult, Qinv, inject_Z; simpl. lia.
Qed.

(** "The mean exceeds the threshold" as the loop computes it and as the
    fraction says it. *)
Lemma mean_exceeds_iff (l : list byte) :
  num_gt (mean l) 55 = true <-> meanExceeds l 55.
Proof.
  unfold mean, meanExceeds, meanOf.
  destruct l as [|b l].
  - cbn. split; [discriminate | tauto].
  - assert (0 < Z.of_nat (length (b :: l))) as Hlen by (cbn [length]; lia).
    rewrite num_gt_js_div by assumption.
    rewrite Z.ltb_lt, Qlt_inject_div by assumption.
    rewrite reduceSum0_amplitudes. reflexivity.
Qed.

(** C5.  For every frame of byte-valued bins, the hit test of the loop
    (sum of the first 15 bins over 15, or sum of all bins over their
    number, above 55) is true exactly when the mean amplitude of the first
    15 bins exceeds 55 or the mean amplitude of all bins exceeds 55, the
    means being exact fractions of the amplitudes 0..255 the bytes stand
    for.  At the threshold: 256 bins of 55 are no hit, 256 bins of 56 are
    one; 15 low bins of 56 over silence are a hit, 15 low bins of 55 are
    not. *)
Theorem C5_hit_test (f : Frame) :
  (Hysteresis.isHit f = true <-> hitBySpec f) /\
  Forall (fun b => (amplitude b <= 255)%nat /\ bin b = Z.of_nat (amplitude b)) f /\
  Hysteresis.isHit (repeat x37 256) = false /\
  Hysteresis.isHit (repeat x38 256) = true /\
  Hysteresis.isHit (repeat x38 15 ++ repeat x00 241) = true /\
  Hysteresis.isHit (repeat x37 15 ++ repeat x00 241) = false /\
  Hysteresis.isHit (repeat x00 15 ++ repeat x38 241) = false /\
  Hysteresis.isHit (repeat x00 15 ++ repeat x3b 241) = true.
Proof.
  split; [|split].
  - rewrite isHit_iff_specHit. unfold specHit, hitBySpec.
    rewrite !mean_exceeds_iff. reflexivity.
  - apply Forall_forall. intros b _. split.
    + apply Byte.to_nat_bounded.
    + unfold bin, amplitude. rewrite Byte.to_nat_via_N, N_nat_Z. reflexivity.
  - vm_compute. repeat split.
Qed.

(** C6 (the code at the failing input).  The frames
    hit,hit,hit,miss,hit,hit,hit,hit, 16 ms apart, in LISTENING with the
    microphone on and the counter at 0: the counter the trigger gate reads
    is 1,1,1,0,1,1,1,1 and the counter stored after each call is the same,
    not 1,2,3,2,3,4,5,6; the threshold of 6 is not reached on the eighth
    frame or on any, and the state stays LISTENING.  The same frames in
    CANDLES_LIT give 1,2,3,2,3,4,5,6 and BLOW_OUT on the eighth call. *)
Theorem C6_run_length_reset_in_listening :
  let frames := [loud; loud; loud; quiet; loud; loud; loud; loud] in
  let listening := initMic true (mount 1000) in
  let candles :=
    mkMachine CANDLES_LIT (Fin 0) true (Some (mkAnalyser 512)) 8000 0 0 in
  map isHit frames = [true; true; true; false; true; true; true; true] /\
  state listening = LISTENING /\ blowHitFramesRef listening = 0 /\
  gateTrace listening (ticksEvery 16 1016 frames) = [1; 1; 1; 0; 1; 1; 1; 1] /\
  stateTrace listening (ticksEvery 16 1016 frames) = repeat LISTENING 8 /\
  gateTrace candles (ticksEvery 16 8016 frames) = [1; 2; 3; 2; 3; 4; 5; 6] /\
  stateTrace candles (ticksEvery 16 8016 frames) =
    repeat CANDLES_LIT 7 ++ [BLOW_OUT] /\
  requiredFrames = 6.
Proof.
  vm_compute. repeat split.
Qed.

(** C7.  When the microphone cannot be opened the machine enters
    LISTENING; every sequence of later calls runs without an exception, and
    after each of them the state is still LISTENING, the microphone is
    still off and no trigger has been recorded. *)
Theorem C7_mic_failure (m : Machine) (ticks : list Tick) :
  state (initMic false m) = LISTENING /\
  micActive (initMic false m) = false /\
  exists m', run (initMic false m) ticks = Ok m' /\
             state m' = LISTENING /\ micActive m' = false /\
             lastTriggerAtRef m' = lastTriggerAtRef m /\
             stateTrace (initMic false m) ticks = repeat LISTENING (length ticks).
Proof.
  split; [reflexivity|]. split; [reflexivity|].
  assert (forall ticks m0, state m0 = LISTENING -> micActive m0 = false ->
            exists m', run m0 ticks = Ok m' /\
                       state m' = LISTENING /\ micActive m' = false /\
                       lastTriggerAtRef m' = lastTriggerAtRef m0 /\
                       stateTrace m0 ticks = repeat LISTENING (length ticks)) as H.
  { clear. induction ticks as [|t rest IH]; intros m0 Hs Hm.
    - exists m0. repeat split; assumption.
    - destruct (update_cases m0 t) as [m1 [Hu Hc]].
      destruct (timeoutStep_frame m0 (now t)) as [Fm [Fa Ft]].
      assert (m1 = timeoutStep m0 (now t)) as E.
      { inversion Hc as [G | G T | G T S]; subst; auto;
          rewrite Fm, Hm, andb_false_r in G; discriminate. }
      assert (state m1 = LISTENING) as Hs1.
      { rewrite E. unfold timeoutStep. rewrite Hs. cbn.
        destruct (0 <? now t - lastStateTimeRef m0); reflexivity. }
      destruct (IH m1) as [m' [Hr [Hs' [Hm' [Ht' Htr]]]]].
      { assumption. }
      { rewrite E, Fm. assumption. }
      exists m'. cbn [run stateTrace length repeat]. rewrite Hu. cbn [bind].
      repeat split; try assumption.
      + rewrite Ht', E. assumption.
      + rewrite Hs1, Htr. reflexivity. }
  destruct (H ticks (initMic false m)) as [m' Hm']; [reflexivity..|].
  exists m'. exact Hm'.
Qed.

(** C8.  In a state other than LISTENING and CANDLES_LIT the state after a
    call is the one the timeout branch alone gives, whatever the frame and
    the microphone; from GIFT_OPEN every sequence of calls ends in
    GIFT_OPEN. *)
Theorem C8_audio_ignored_elsewhere (m : Machine) (t : Tick) :
  (state m <> LISTENING -> state m <> CANDLES_LIT ->
     exists m', update m t = Ok m' /\
                state m' = state (timeoutStep m (now t))) /\
  (state m = GIFT_OPEN ->
     forall ticks, exists m', run m ticks = Ok m' /\ state m' = GIFT_OPEN /\
                              stateTrace m ticks = repeat GIFT_OPEN (length ticks)).
Proof.
  split.
  - intros H1 H2. destruct (update_ungated m t H1 H2) as [m' [Hu [Hs _]]].
    exists m'. auto.
  - intros Hs ticks. revert m Hs.
    induction ticks as [|t1 rest IH]; intros m Hs.
    + exists m. repeat split; assumption.
    + destruct (update_ungated m t1) as [m1 [Hu [Hs1 _]]]; try congruence.
      rewrite (timeoutStep_unbounded m (now t1)) in Hs1
        by (rewrite Hs; reflexivity).
      destruct (IH m1) as [m' [Hr [Hs' Htr]]]; [congruence|].
      exists m'. cbn [run stateTrace length repeat]. rewrite Hu. cbn [bind].
      repeat split; try assumption.
      rewrite Hs1, Hs, Htr. reflexivity.
Qed.

(** C8 at COUNTDOWN and at GIFT_OPEN, with loud frames and a counter
    already above the threshold. *)
Lemma C8_audio_ignored_elsewhere_witness :
  (exists m',
      update (mkMachine COUNTDOWN (Fin 0) true (Some (mkAnalyser 512)) 1000 9 0)
             (mkTick 2000 loud) = Ok m' /\
      state m' = COUNTDOWN) /\
  (exists m',
      run (mkMachine GIFT_OPEN (Fin 0) true (Some (mkAnalyser 512)) 1000 9 0)
          (ticksEvery 16 2000 (repeat loud 8)) = Ok m' /\
      state m' = GIFT_OPEN).
Proof.
  split.
  - destruct (C8_audio_ignored_elsewhere
                (mkMachine COUNTDOWN (Fin 0) true (Some (mkAnalyser 512)) 1000 9 0)
                (mkTick 2000 loud)) as [H _].
    destruct H as [m' [Hu Hs]]; [discriminate | discriminate |].
    exists m'. split; [exact Hu | exact Hs].
  - destruct (C8_audio_ignored_elsewhere
                (mkMachine GIFT_OPEN (Fin 0) true (Some (mkAnalyser 512)) 1000 9 0)
                (mkTick 2000 loud)) as [_ H].
    destruct (H eq_refl (ticksEvery 16 2000 (repeat loud 8))) as [m' [Hr [Hs _]]].
    exists m'. split; [exact Hr | exact Hs].
Defined.

(** C9.  In IDLE and LISTENING the table has no entry and the duration
    looked up is 0; on a call with positive elapsed time the timeout branch
    runs, keeps the state, and sets the elapsed-time origin to now and
    progress and the counter to 0; the counter the trigger gate then reads
    is 0 or 1, the gate is closed, and the call keeps the state. *)
Theorem C9_untimed_states_reset_every_call (m : Machine) (t : Tick) :
  state m = IDLE \/ state m = LISTENING ->
  0 < now t - lastStateTimeRef m ->
  DURATIONS (state m) = None /\
  lookupDuration (state m) = Ms 0 /\
  timeoutStep m (now t) =
    mkMachine (state m) (Fin 0) (micActive m) (analyserRef m)
              (now t) 0 (lastTriggerAtRef m) /\
  0 <= hitsAtGate (timeoutStep m (now t)) (frame t) <= 1 /\
  shouldTrigger (hitsAtGate (timeoutStep m (now t)) (frame t)) = false /\
  exists m', update m t = Ok m' /\ state m' = state m.
Proof.
  intros Hs He.
  assert (DURATIONS (state m) = None) as Hd
      by (destruct Hs as [-> | ->]; reflexivity).
  assert (timeoutStep m (now t) =
          mkMachine (state m) (Fin 0) (micActive m) (analyserRef m)
                    (now t) 0 (lastTriggerAtRef m)) as Ht.
  { rewrite (timeoutStep_untimed m (now t) Hd).
    destruct (Z.ltb_spec 0 (now t - lastStateTimeRef m)); [reflexivity | lia]. }
  assert (0 <= hitsAtGate (timeoutStep m (now t)) (frame t) <= 1) as Hg.
  { rewrite Ht. unfold hitsAtGate. cbn [blowHitFramesRef].
    apply countFrame_from_zero. }
  split; [assumption|]. split.
  { destruct Hs as [-> | ->]; reflexivity. }
  split; [assumption|]. split; [assumption|]. split.
  { unfold shouldTrigger, requiredFrames. apply Z.leb_gt. lia. }
  destruct (update_untimed m t Hd He) as [m' [Hu [Hs' _]]].
  exists m'. auto.
Qed.

(** C9 at LISTENING with a counter of 5, 16 ms after the last reset. *)
Lemma C9_untimed_states_reset_every_call_witness :
  let m := mkMachine LISTENING (Fin 0) true (Some (mkAnalyser 512)) 1000 5 0 in
  let t := mkTick 1016 loud in
  hitsAtGate (timeoutStep m (now t)) (frame t) <= 1 /\
  exists m', update m t = Ok m' /\ state m' = LISTENING.
Proof.
  destruct (C9_untimed_states_reset_every_call
              (mkMachine LISTENING (Fin 0) true (Some (mkAnalyser 512)) 1000 5 0)
              (mkTick 1016 loud)) as [_ [_ [_ [Hg [_ Hu]]]]].
  - right. reflexivity.
  - cbn. lia.
  - split; [apply Hg | exact Hu].
Defined.

(** C10.  In the loop of App.tsx, with the analyser in place and the
    microphone active, one call whose frame has a low-frequency mean or a
    total mean above 55 moves LISTENING to COUNTDOWN and CANDLES_LIT to
    BLOW_OUT and sets the elapsed-time origin to now, whatever the earlier
    frames were and whenever the previous trigger was. *)
Theorem C10_single_frame_trigger
  (m : AppTsx.Machine) (t : Tick) (a : AnalyserNode) :
  AppTsx.analyserRef m = Some a ->
  AppTsx.micActive m = true ->
  specHit (frame t) ->
  (AppTsx.state m = LISTENING ->
     exists m', AppTsx.update m t = Ok m' /\
                AppTsx.state m' = COUNTDOWN /\
                AppTsx.lastStateTimeRef m' = now t) /\
  (AppTsx.state m = CANDLES_LIT ->
     exists m', AppTsx.update m t = Ok m' /\
                AppTsx.state m' = BLOW_OUT /\
                AppTsx.lastStateTimeRef m' = now t).
Proof.
  intros Ha Hm Hhit.
  pose proof (AppTsx_isHit_specHit _ Hhit) as Hi.
  split; intros Hs.
  - destruct (AppTsx_timeoutStep_gated m (now t) (or_introl Hs)) as [_ [Fm Fa]].
    unfold AppTsx.update, AppTsx.audioStep.
    rewrite Fa, Fm, Ha, Hm, Hi, Hs. cbn.
    eexists. repeat split.
  - destruct (AppTsx_timeoutStep_gated m (now t) (or_intror Hs)) as [_ [Fm Fa]].
    unfold AppTsx.update, AppTsx.audioStep.
    rewrite Fa, Fm, Ha, Hm, Hi, Hs. cbn.
    eexists. repeat split.
Qed.

(** C10 on the first frame after the microphone is granted, and one
    millisecond after CANDLES_LIT is entered. *)
Lemma C10_single_frame_trigger_witness :
  (exists m',
      AppTsx.update (AppTsx.initMic true (AppTsx.mount 1000)) (mkTick 1016 loud)
      = Ok m' /\ AppTsx.state m' = COUNTDOWN) /\
  (exists m',
      AppTsx.update
        (AppTsx.mkMachine CANDLES_LIT (Fin 0) true (Some (mkAnalyser 512)) 8016)
        (mkTick 8017 loud)
      = Ok m' /\ AppTsx.state m' = BLOW_OUT).
Proof.
  assert (specHit loud) as Hloud by (left; vm_compute; reflexivity).
  split.
  - destruct (C10_single_frame_trigger
                (AppTsx.initMic true (AppTsx.mount 1000)) (mkTick 1016 loud)
                (mkAnalyser 512) eq_refl eq_refl Hloud) as [H _].
    destruct (H eq_refl) as [m' [Hu [Hs _]]].
    exists m'. split; [exact Hu | exact Hs].
  - destruct (C10_single_frame_trigger
                (AppTsx.mkMachine CANDLES_LIT (Fin 0) true (Some (mkAnalyser 512)) 8016)
                (mkTick 8017 loud)
                (mkAnalyser 512) eq_refl eq_refl Hloud) as [_ H].
    destruct (H eq_refl) as [m' [Hu [Hs _]]].
    exists m'. split; [exact Hu | exact Hs].
Defined.

(** * Further properties of the code *)

(** ** More on the loop of geminiService.ts *)

Lemma timeoutStep_stage (m : Machine) (now : Z) :
  stageIndex (state m) <= stageIndex (state (timeoutStep m now))
  <= stageIndex (state m) + 1 /\
  (state m = IDLE \/ state m = LISTENING \/ state m = CANDLES_LIT ->
   state (timeoutStep m now) = state m).
Proof.
  unfold timeoutStep.
  destruct (state m) eqn:Hs; cbn;
    repeat match goal with
           | |- context [if ?c then _ else _] => destruct c
           end; cbn; rewrite ?Hs; cbn; split; try lia; auto;
    intros [H|[H|H]]; discriminate.
Qed.

(** X1.  One call of the loop never moves the state backwards and never
    skips a stage, and IDLE is not left by a call; so a run of [n] calls
    ends at most [n] stages further on, and never earlier, than it
    started. *)
Theorem run_stage_monotone (ticks : list Tick) (m : Machine) :
  exists m', run m ticks = Ok m' /\
    stageIndex (state m) <= stageIndex (state m')
    <= stageIndex (state m) + Z.of_nat (length ticks) /\
    (state m = IDLE -> state m' = IDLE).
Proof.
  revert m. induction ticks as [|t rest IH]; intros m.
  - exists m. cbn. repeat split; auto; lia.
  - destruct (update_cases m t) as [m1 [Hu Hc]].
    destruct (timeoutStep_stage m (now t)) as [Hst Hkeep].
    assert (stageIndex (state m) <= stageIndex (state m1)
            <= stageIndex (state m) + 1 /\
            (state m = IDLE -> state m1 = IDLE)) as [H1 Hidle].
    { inversion Hc as [G | G T | G T S]; subst; cbn.
      - split; [lia|]. intros E. rewrite Hkeep; auto.
      - split; [lia|]. intros E. rewrite Hkeep; auto.
      - destruct S as [S|S]; rewrite S in *; cbn in *; split;
          try discriminate; rewrite Hkeep in Hst by auto; cbn in Hst; lia. }
    destruct (IH m1) as [m' [Hr [H2 Hidle2]]].
    exists m'. cbn [run length]. rewrite Hu. cbn [bind].
    split; [assumption|]. split; [lia|]. auto.
Qed.

(** X2.  The run-length counter is never negative: a call keeps
    [0 <= blowHitFramesRef]. *)
Theorem counter_never_negative (ticks : list Tick) (m : Machine) :
  0 <= blowHitFramesRef m ->
  exists m', run m ticks = Ok m' /\ 0 <= blowHitFramesRef m'.
Proof.
  revert m. induction ticks as [|t rest IH]; intros m Hm.
  - exists m. split; [reflexivity | assumption].
  - destruct (update_cases m t) as [m1 [Hu Hc]].
    assert (0 <= blowHitFramesRef (timeoutStep m (now t))) as Ht.
    { unfold timeoutStep.
      destruct (notInfinity _ && exceeds _ _); [cbn; lia|].
      destruct (notInfinity _); cbn; assumption. }
    assert (0 <= blowHitFramesRef m1) as H1.
    { inversion Hc as [G | G T | G T S]; subst; cbn; try lia.
      unfold hitsAtGate. apply countFrame_nonneg. assumption. }
    destruct (IH m1 H1) as [m' [Hr H']].
    exists m'. cbn [run]. rewrite Hu. cbn [bind]. auto.
Qed.

Lemma counter_never_negative_witness :
  exists m', run (initMic true (mount 1000))
                 (ticksEvery 16 1016 [quiet; loud; quiet; quiet]) = Ok m' /\
             0 <= blowHitFramesRef m'.
Proof.
  apply (counter_never_negative
           (ticksEvery 16 1016 [quiet; loud; quiet; quiet])
           (initMic true (mount 1000))).
  cbn. lia.
Defined.

(** X3.  The trigger time changes only when the audio block fires, and it
    fires only more than 900 ms after the previous trigger: a call that
    changes [lastTriggerAtRef] sets it to the clock of the call, found the
    old value more than [cooldownMs] back, and left a gated state. *)
Theorem triggers_are_spaced (m : Machine) (t : Tick) :
  exists m', update m t = Ok m' /\
    (lastTriggerAtRef m' <> lastTriggerAtRef m ->
       lastTriggerAtRef m' = now t /\
       cooldownMs < now t - lastTriggerAtRef m /\
       requiredFrames <= hitsAtGate (timeoutStep m (now t)) (frame t) /\
       (state m = LISTENING /\ state m' = COUNTDOWN \/
        state m = CANDLES_LIT /\ state m' = BLOW_OUT)).
Proof.
  destruct (update_cases m t) as [m' [Hu Hc]].
  destruct (timeoutStep_frame m (now t)) as [_ [_ Ft]].
  exists m'. split; [assumption|]. intros Hne.
  inversion Hc as [G | G T | G T S]; subst; cbn in *; try congruence.
  apply andb_prop in T as [T1 T2]. unfold canTrigger in T1.
  unfold shouldTrigger in T2. rewrite Ft in T1.
  apply Z.ltb_lt in T1. apply Z.leb_le in T2.
  repeat split; try assumption.
  destruct S as [S|S]; rewrite S; auto.
Qed.

Lemma triggers_are_spaced_witness :
  exists m',
    update (mkMachine CANDLES_LIT (Fin 0) true (Some (mkAnalyser 512)) 8000 5 1000)
           (mkTick 9000 loud) = Ok m' /\
    lastTriggerAtRef m' = 9000.
Proof.
  destruct (triggers_are_spaced
              (mkMachine CANDLES_LIT (Fin 0) true (Some (mkAnalyser 512)) 8000 5 1000)
              (mkTick 9000 loud)) as [m' [Hu H]].
  exists m'. split; [exact Hu|].
  assert (update (mkMachine CANDLES_LIT (Fin 0) true (Some (mkAnalyser 512)) 8000 5 1000)
                 (mkTick 9000 loud)
          = Ok (mkMachine BLOW_OUT (Fin 0) true (Some (mkAnalyser 512)) 9000 0 9000)) as E
      by (vm_compute; reflexivity).
  rewrite E in Hu. injection Hu as <-.
  apply H. cbn. lia.
Defined.

(** X4.  In CANDLES_LIT with the analyser in place and the microphone
    active, a call moves to BLOW_OUT exactly when the counter, after the
    frame of the call is counted, is at least 6 and the previous trigger is
    more than 900 ms back; otherwise the call stays in CANDLES_LIT and
    stores the counter. *)
Theorem candles_trigger_exactly (m : Machine) (t : Tick) (a : AnalyserNode) :
  state m = CANDLES_LIT ->
  analyserRef m = Some a ->
  micActive m = true ->
  exists m', update m t = Ok m' /\
    (state m' = BLOW_OUT <->
       requiredFrames <= hitsAtGate m (frame t) /\
       cooldownMs < now t - lastTriggerAtRef m) /\
    (state m' <> BLOW_OUT ->
       state m' = CANDLES_LIT /\
       blowHitFramesRef m' = hitsAtGate m (frame t) /\
       lastStateTimeRef m' = lastStateTimeRef m).
Proof.
  intros Hs Ha Hm.
  destruct (update_cases m t) as [m' [Hu Hc]].
  rewrite (timeoutStep_unbounded m (now t)) in Hc by (rewrite Hs; reflexivity).
  exists m'. split; [assumption|].
  inversion Hc as [G | G T | G T S]; subst; cbn.
  - rewrite Ha, Hm in G. discriminate.
  - rewrite Hs. split.
    + split; [discriminate|]. intros [H1 H2].
      destruct T as [T|[_ T]]; [|congruence].
      apply andb_false_iff in T as [T|T].
      * unfold canTrigger in T. apply Z.ltb_ge in T. lia.
      * unfold shouldTrigger in T. apply Z.leb_gt in T. lia.
    + auto.
  - rewrite Hs. apply andb_prop in T as [T1 T2].
    unfold canTrigger in T1. unfold shouldTrigger in T2.
    apply Z.ltb_lt in T1. apply Z.leb_le in T2.
    split; [tauto|]. intros H. congruence.
Qed.

Lemma candles_trigger_exactly_witness :
  exists m',
    update (mkMachine CANDLES_LIT (Fin 0) true (Some (mkAnalyser 512)) 8000 5 1000)
           (mkTick 9000 loud) = Ok m' /\
    (state m' = BLOW_OUT <->
       requiredFrames <= 6 /\ cooldownMs < 9000 - 1000).
Proof.
  destruct (candles_trigger_exactly
              (mkMachine CANDLES_LIT (Fin 0) true (Some (mkAnalyser 512)) 8000 5 1000)
              (mkTick 9000 loud) (mkAnalyser 512) eq_refl eq_refl eq_refl)
    as [m' [Hu [H _]]].
  exists m'. split; [exact Hu | exact H].
Defined.

(** X5.  Division by the zero duration: in IDLE and LISTENING a call whose
    clock equals the elapsed-time origin leaves progress at [NaN], and a
    call whose clock is before the origin leaves it at minus infinity. *)
Theorem untimed_progress_not_a_number (m : Machine) (t : Tick) :
  state m = IDLE \/ state m = LISTENING ->
  now t - lastStateTimeRef m <= 0 ->
  exists m', update m t = Ok m' /\
    progress m' = (if now t - lastStateTimeRef m =? 0 then NaN else NegInf).
Proof.
  intros Hs He.
  destruct (update_cases m t) as [m' [Hu Hc]].
  exists m'. split; [assumption|].
  assert (progress m' = progress (timeoutStep m (now t))) as ->
      by (inversion Hc; subst; reflexivity).
  rewrite (timeoutStep_untimed m (now t))
    by (destruct Hs as [-> | ->]; reflexivity).
  destruct (Z.ltb_spec 0 (now t - lastStateTimeRef m)); [lia|]. cbn.
  unfold js_div. cbn.
  destruct (Z.ltb_spec 0 (now t - lastStateTimeRef m)); [lia|].
  destruct (Z.eqb_spec (now t - lastStateTimeRef m) 0) as [E|E].
  - destruct (Z.ltb_spec (now t - lastStateTimeRef m) 0); [lia|]. reflexivity.
  - destruct (Z.ltb_spec (now t - lastStateTimeRef m) 0); [|lia]. reflexivity.
Qed.

Lemma untimed_progress_not_a_number_witness :
  exists m', update (initMic true (mount 1000)) (mkTick 1000 loud) = Ok m' /\
             progress m' = NaN.
Proof.
  apply (untimed_progress_not_a_number
           (initMic true (mount 1000)) (mkTick 1000 loud)).
  - right. reflexivity.
  - cbn. lia.
Defined.

(** X6.  In a timed state, with the clock not before the origin, the
    progress a call leaves is a number between 0 and 1. *)
Theorem timed_progress_in_unit_interval (m : Machine) (t : Tick) (D : Z) :
  DURATIONS (state m) = Some (Ms D) ->
  0 <= now t - lastStateTimeRef m ->
  exists m' q, update m t = Ok m' /\ progress m' = Fin q /\
               (0 <= q <= 1)%Q.
Proof.
  intros HD He.
  destruct (lookupDuration_timed _ _ HD) as [_ Hpos].
  destruct (update_ungated m t) as [m' [Hu [_ [Hp _]]]].
  { destruct (DURATIONS_timed _ _ HD) as [[-> _]|[[-> _]|[-> _]]]; discriminate. }
  { destruct (DURATIONS_timed _ _ HD) as [[-> _]|[[-> _]|[-> _]]]; discriminate. }
  rewrite (timeoutStep_timed m (now t) D HD) in Hp.
  exists m'.
  destruct (Z.ltb_spec D (now t - lastStateTimeRef m)) as [Hlt|Hle]; cbn in Hp.
  - exists 0%Q. repeat split; auto; discriminate.
  - rewrite progress_value in Hp by assumption.
    eexists. split; [exact Hu|]. split; [exact Hp|].
    split.
    + apply Qle_trans with (inject_Z (now t - lastStateTimeRef m) / inject_Z D)%Q.
      2:{ apply Qle_lteq. right. symmetry. apply Qred_correct. }
      destruct D as [|p|p]; try lia.
      unfold Qle, Qdiv, Qmult, Qinv, inject_Z; simpl. lia.
    + change 1%Q with (inject_Z 1). apply (proj2 (Qred_le_inject _ _)).
      apply Qdiv_inject_le; lia.
Qed.

Lemma timed_progress_in_unit_interval_witness :
  exists m' q,
    update (mkMachine BLOW_OUT (Fin 0) false None 1000 0 0) (mkTick 1500 quiet)
    = Ok m' /\ progress m' = Fin q /\ (0 <= q <= 1)%Q.
Proof.
  apply (timed_progress_in_unit_interval
           (mkMachine BLOW_OUT (Fin 0) false None 1000 0 0)
           (mkTick 1500 quiet) 2000).
  - reflexivity.
  - cbn. lia.
Defined.

(** ** More on the loop of App.tsx *)

Lemma AppTsx_timeoutStep_frame (m : AppTsx.Machine) (now : Z) :
  AppTsx.micActive (AppTsx.timeoutStep m now) = AppTsx.micActive m /\
  AppTsx.analyserRef (AppTsx.timeoutStep m now) = AppTsx.analyserRef m.
Proof.
  unfold AppTsx.timeoutStep.
  destruct (notInfinity _ && exceeds _ _); [|destruct (notInfinity _)];
    split; reflexivity.
Qed.

Lemma AppTsx_timeoutStep_stage (m : AppTsx.Machine) (now : Z) :
  stageIndex (AppTsx.state m) <= stageIndex (AppTsx.state (AppTsx.timeoutStep m now))
  <= stageIndex (AppTsx.state m) + 1 /\
  (AppTsx.state m = IDLE \/ AppTsx.state m = LISTENING \/
   AppTsx.state m = CANDLES_LIT ->
   AppTsx.state (AppTsx.timeoutStep m now) = AppTsx.state m).
Proof.
  unfold AppTsx.timeoutStep.
  destruct (AppTsx.state m) eqn:Hs; cbn;
    repeat match goal with
           | |- context [if ?c then _ else _] => destruct c
           end; cbn; rewrite ?Hs; cbn; split; try lia; auto;
    intros [H|[H|H]]; discriminate.
Qed.

(** With the microphone off the audio block of App.tsx is skipped. *)
Lemma AppTsx_update_mic_off (m : AppTsx.Machine) (t : Tick) :
  truthy (AppTsx.analyserRef m) && AppTsx.micActive m = false ->
  AppTsx.update m t = Ok (AppTsx.timeoutStep m (now t)).
Proof.
  intros G. unfold AppTsx.update, AppTsx.audioStep.
  destruct (AppTsx_timeoutStep_frame m (now t)) as [-> ->].
  rewrite G. reflexivity.
Qed.

(** With the microphone on and a frame that has a bin, the audio block of
    App.tsx acts on the hit test alone. *)
Lemma AppTsx_update_mic_on (m : AppTsx.Machine) (t : Tick) (b : byte) (f : Frame) :
  truthy (AppTsx.analyserRef m) && AppTsx.micActive m = true ->
  frame t = b :: f ->
  AppTsx.update m t =
  Ok (let m1 := AppTsx.timeoutStep m (now t) in
      if Hysteresis.isHit (frame t) then
        match AppTsx.state m with
        | LISTENING =>
            AppTsx.mkMachine COUNTDOWN (AppTsx.progress m1) (AppTsx.micActive m1)
                             (AppTsx.analyserRef m1) (now t)
        | CANDLES_LIT =>
            AppTsx.mkMachine BLOW_OUT (AppTsx.progress m1) (AppTsx.micActive m1)
                             (AppTsx.analyserRef m1) (now t)
        | _ => m1
        end
      else m1).
Proof.
  intros G Hf. unfold AppTsx.update, AppTsx.audioStep.
  destruct (AppTsx_timeoutStep_frame m (now t)) as [Em Ea].
  rewrite Ea, Em, G.
  destruct (AppTsx.analyserRef m) as [a|]; [|discriminate G].
  cbn [deref bind]. rewrite Hf, AppTsx_isHit_nonempty. cbn [bind].
  destruct (isHit (b :: f)); [|reflexivity].
  destruct (AppTsx.state m); reflexivity.
Qed.

(** X10.  On the frames the loop of App.tsx really reads, which have the
    [frequencyBinCount] = 256 bins of the analyser that [initMic] builds,
    no call throws (the [reduce] without an initial value always has a
    first element), and a run never moves the state backwards, advances at
    most one stage per call, and never leaves IDLE. *)
Theorem AppTsx_run_stage_monotone (ticks : list Tick) (m : AppTsx.Machine) :
  Forall (fun t => Z.of_nat (length (frame t)) = frequencyBinCount (mkAnalyser 512))
         ticks ->
  exists m', AppTsx.run m ticks = Ok m' /\
    stageIndex (AppTsx.state m) <= stageIndex (AppTsx.state m')
    <= stageIndex (AppTsx.state m) + Z.of_nat (length ticks) /\
    (AppTsx.state m = IDLE -> AppTsx.state m' = IDLE).
Proof.
  revert m. induction ticks as [|t rest IH]; intros m Hall.
  - exists m. cbn. repeat split; auto; lia.
  - inversion Hall as [|t' rest' Hlen Hrest]; subst.
    destruct (AppTsx_timeoutStep_stage m (now t)) as [Hst Hkeep].
    assert (exists m1, AppTsx.update m t = Ok m1 /\
              stageIndex (AppTsx.state m) <= stageIndex (AppTsx.state m1)
              <= stageIndex (AppTsx.state m) + 1 /\
              (AppTsx.state m = IDLE -> AppTsx.state m1 = IDLE))
      as [m1 [Hu [H1 Hidle]]].
    { destruct (truthy (AppTsx.analyserRef m) && AppTsx.micActive m) eqn:G.
      - destruct (frame t) as [|b f] eqn:Hf.
        { exfalso. cbn in Hlen. unfold frequencyBinCount in Hlen.
          cbn in Hlen. discriminate. }
        rewrite (AppTsx_update_mic_on m t b f G Hf).
        eexists. split; [reflexivity|]. cbv zeta.
        destruct (isHit (frame t)).
        + destruct (AppTsx.state m) eqn:Hs; cbn [AppTsx.state];
            try (split; [exact Hst | intros E; try discriminate;
                                    apply Hkeep; auto]);
            (rewrite Hkeep in Hst by auto); cbn in *;
            (split; [lia | discriminate]).
        + split; [exact Hst|]. intros E. rewrite Hkeep; auto.
      - rewrite (AppTsx_update_mic_off m t G).
        eexists. split; [reflexivity|].
        split; [exact Hst|]. intros E. rewrite Hkeep; auto. }
    destruct (IH m1 Hrest) as [m' [Hr [H2 Hidle2]]].
    exists m'. cbn [AppTsx.run length]. rewrite Hu. cbn [bind].
    split; [assumption|]. split; [lia|]. auto.
Qed.

Lemma AppTsx_run_stage_monotone_witness :
  exists m',
    AppTsx.run (AppTsx.initMic true (AppTsx.mount 1000))
               (ticksEvery 16 1016 [quiet; loud; loud]) = Ok m' /\
    1 <= stageIndex (AppTsx.state m') <= 1 + 3.
Proof.
  destruct (AppTsx_run_stage_monotone
              (ticksEvery 16 1016 [quiet; loud; loud])
              (AppTsx.initMic true (AppTsx.mount 1000)))
    as [m' [Hr [Hs _]]].
  - repeat constructor.
  - exists m'. split; [exact Hr | exact Hs].
Defined.

(** X11.  In LISTENING and CANDLES_LIT, with the analyser in place, the
    microphone active and a frame that has a bin, the loop of App.tsx
    leaves the state exactly when the frame passes the hit test; a frame
    that does not pass leaves state and origin as the timeout branch left
    them. *)
Theorem AppTsx_trigger_exactly_on_hit
  (m : AppTsx.Machine) (t : Tick) (a : AnalyserNode) :
  AppTsx.state m = LISTENING \/ AppTsx.state m = CANDLES_LIT ->
  AppTsx.analyserRef m = Some a ->
  AppTsx.micActive m = true ->
  frame t <> [] ->
  exists m', AppTsx.update m t = Ok m' /\
    (AppTsx.state m' <> AppTsx.state m <-> specHit (frame t)) /\
    (~ specHit (frame t) -> m' = AppTsx.timeoutStep m (now t)) /\
    (specHit (frame t) ->
       stageIndex (AppTsx.state m') = stageIndex (AppTsx.state m) + 1 /\
       AppTsx.lastStateTimeRef m' = now t).
Proof.
  intros Hs Ha Hm Hne.
  destruct (frame t) as [|b f] eqn:Hf; [congruence|].
  assert (truthy (AppTsx.analyserRef m) && AppTsx.micActive m = true) as G
      by (rewrite Ha, Hm; reflexivity).
  rewrite (AppTsx_update_mic_on m t b f G Hf).
  eexists. split; [reflexivity|]. cbv zeta.
  destruct (AppTsx_timeoutStep_stage m (now t)) as [_ Hkeep].
  assert (AppTsx.state (AppTsx.timeoutStep m (now t)) = AppTsx.state m) as Hk
      by (apply Hkeep; tauto).
  rewrite Hf. rewrite <- (isHit_iff_specHit (b :: f)).
  destruct (isHit (b :: f)).
  - destruct Hs as [Hs|Hs]; rewrite Hs; cbn;
      (split; [split; [reflexivity | discriminate]|]);
      (split; [intros H; exfalso; apply H; reflexivity|]); auto.
  - split; [|split].
    + split; [intros H; congruence | discriminate].
    + reflexivity.
    + discriminate.
Qed.

Lemma AppTsx_trigger_exactly_on_hit_witness :
  exists m',
    AppTsx.update (AppTsx.initMic true (AppTsx.mount 1000)) (mkTick 1016 quiet)
    = Ok m' /\
    (AppTsx.state m' <> LISTENING <-> specHit quiet).
Proof.
  destruct (AppTsx_trigger_exactly_on_hit
              (AppTsx.initMic true (AppTsx.mount 1000)) (mkTick 1016 quiet)
              (mkAnalyser 512)) as [m' [Hu [H _]]].
  - left. reflexivity.
  - reflexivity.
  - reflexivity.
  - discriminate.
  - exists m'. split; [exact Hu | exact H].
Defined.

(** X12.  In App.tsx the [catch] arm of [initMic] does not write
    [micActive]: when the microphone was off before, every later sequence
    of calls runs without an exception, for frames of any length, and
    stays in LISTENING. *)
Theorem AppTsx_mic_failure_stays_listening (m : AppTsx.Machine) (ticks : list Tick) :
  AppTsx.micActive m = false ->
  AppTsx.state (AppTsx.initMic false m) = LISTENING /\
  exists m', AppTsx.run (AppTsx.initMic false m) ticks = Ok m' /\
             AppTsx.state m' = LISTENING /\ AppTsx.micActive m' = false.
Proof.
  intros Hm. split; [reflexivity|].
  assert (forall ticks m0, AppTsx.state m0 = LISTENING ->
            AppTsx.micActive m0 = false ->
            exists m', AppTsx.run m0 ticks = Ok m' /\
                       AppTsx.state m' = LISTENING /\
                       AppTsx.micActive m' = false) as H.
  { clear. induction ticks as [|t rest IH]; intros m0 Hs Hm.
    - exists m0. auto.
    - cbn [AppTsx.run].
      rewrite AppTsx_update_mic_off by (rewrite Hm; apply andb_false_r).
      cbn [bind]. apply IH.
      + destruct (AppTsx_timeoutStep_stage m0 (now t)) as [_ Hk].
        rewrite Hk; auto.
      + destruct (AppTsx_timeoutStep_frame m0 (now t)) as [-> _]. assumption. }
  apply H; [reflexivity | exact Hm].
Qed.

Lemma AppTsx_mic_failure_stays_listening_witness :
  exists m',
    AppTsx.run (AppTsx.initMic false (AppTsx.mount 1000))
               (ticksEvery 16 1016 [loud; []; loud]) = Ok m' /\
    AppTsx.state m' = LISTENING.
Proof.
  destruct (AppTsx_mic_failure_stays_listening
              (AppTsx.mount 1000) (ticksEvery 16 1016 [loud; []; loud])
              eq_refl) as [_ [m' [Hr [Hs _]]]].
  exists m'. split; [exact Hr | exact Hs].
Defined.

(** Witnesses for the facts about the loop of geminiService.ts. *)

Lemma listening_stays_witness :
  exists m',
    run (initMic true (mount 1000)) (ticksEvery 16 1016 (repeat loud 8)) = Ok m' /\
    state m' = LISTENING.
Proof.
  apply (listening_stays (ticksEvery 16 1016 (repeat loud 8))
                         (initMic true (mount 1000))).
  - reflexivity.
  - cbn. lia.
Defined.

Lemma timeout_transition_resets_witness :
  let m := mkMachine COUNTDOWN (Fin (1 # 2)) true (Some (mkAnalyser 512)) 1000 4 0 in
  lastStateTimeRef (timeoutStep m 4001) = 4001 /\
  progress (timeoutStep m 4001) = Fin 0 /\
  blowHitFramesRef (timeoutStep m 4001) = 0.
Proof.
  apply (timeout_transition_resets
           (mkMachine COUNTDOWN (Fin (1 # 2)) true (Some (mkAnalyser 512)) 1000 4 0)
           4001).
  cbn. discriminate.
Defined.

Lemma audio_transition_resets_witness :
  let m := mkMachine CANDLES_LIT (Fin (1 # 2)) true (Some (mkAnalyser 512)) 8000 5 1000 in
  let m' := mkMachine BLOW_OUT (Fin (1 # 2)) true (Some (mkAnalyser 512)) 9000 0 9000 in
  lastStateTimeRef m' = 9000 /\ blowHitFramesRef m' = 0 /\
  lastTriggerAtRef m' = 9000 /\ progress m' = progress m.
Proof.
  apply (audio_transition_resets CANDLES_LIT
           (mkMachine CANDLES_LIT (Fin (1 # 2)) true (Some (mkAnalyser 512)) 8000 5 1000)
           (mkMachine BLOW_OUT (Fin (1 # 2)) true (Some (mkAnalyser 512)) 9000 0 9000)
           (mkTick 9000 loud)).
  - vm_compute. reflexivity.
  - cbn. discriminate.
Defined.


(** With the microphone off, the loop of App.tsx runs without an exception
    and stays in IDLE or LISTENING, wherever it is. *)
Lemma AppTsx_run_mic_off (ticks : list Tick) (m : AppTsx.Machine) :
  AppTsx.micActive m = false ->
  AppTsx.state m = IDLE \/ AppTsx.state m = LISTENING ->
  exists m', AppTsx.run m ticks = Ok m' /\
             AppTsx.state m' = AppTsx.state m /\
             AppTsx.micActive m' = false.
Proof.
  revert m. induction ticks as [|t rest IH]; intros m Hm Hs.
  - exists m. auto.
  - cbn [AppTsx.run].
    rewrite AppTsx_update_mic_off by (rewrite Hm; apply andb_false_r).
    cbn [bind].
    destruct (AppTsx_timeoutStep_stage m (now t)) as [_ Hk].
    destruct (AppTsx_timeoutStep_frame m (now t)) as [Em _].
    destruct (IH (AppTsx.timeoutStep m (now t))) as [m' [Hr [Hs' Hm']]].
    + rewrite Em. assumption.
    + rewrite Hk by tauto. assumption.
    + exists m'. rewrite Hs', Hk by tauto. auto.
Qed.

(** ** The providers of the greeting *)

Section ProviderFacts.

Variable JSON_parse : string -> option JsValue.
Variable JSON_stringify : JsValue -> string.
Variable trim : string -> string.
Variable toStr : JsValue -> string.


(** X24.  [generateLuxuryGreeting] of the proxy client resolves only for a
    response that is [ok] and has a parsable body other than [null], and
    what it resolves with always passes the check of [handleInitialize]:
    the message is a string, the empty one when the body has no text. *)
Theorem proxy_provider_result_is_valid (r : ProxyService.FetchResult) (v : JsValue) :
  ProxyService.generateLuxuryGreeting toStr r = Resolved v ->
  validGreeting v = Ok true /\
  exists data text,
    r = ProxyService.FetchResponse true (Some data) /\
    getProp data "text" = Ok text /\
    v = JObject [("message"%string, JString (ProxyService.messageOf toStr text));
                 ("author"%string, JString "Gemini via Supabase")] /\
    (text = JUndefined \/ text = JNull -> ProxyService.messageOf toStr text = ""%string).
Proof.
  unfold ProxyService.generateLuxuryGreeting.
  destruct r as [|ok [data|]]; try discriminate.
  destruct ok; cbn [negb]; try discriminate.
  destruct (getProp data "text") as [text|e] eqn:Et; try discriminate.
  intros H. injection H as <-. split; [reflexivity|].
  exists data, text.
  split; [reflexivity|]. split; [assumption|]. split; [reflexivity|].
  intros [-> | ->]; reflexivity.
Qed.

(** X25.  When the proxy client rejects, the handler of App.tsx stops at the
    [await]: no greeting is set, [initMic] is not called, and the loop
    stays in IDLE whatever frames follow; the handler of geminiService.ts,
    on a visit with nothing cached, shows the local fallback and reaches
    LISTENING. *)
Theorem proxy_failure_app_idle_hardened_starts
  (r : ProxyService.FetchResult) (granted quotaOk : bool)
  (wa : Init.World_a) (wh : Init.World_h) (ticks : list Tick) :
  ProxyService.generateLuxuryGreeting toStr r = Rejected ->
  AppTsx.state (Init.machine wa) = IDLE ->
  AppTsx.micActive (Init.machine wa) = false ->
  Init.cache wh = None ->
  let provider := ProxyService.generateLuxuryGreeting toStr r in
  let wa' := Init.handleInitialize_a provider granted wa in
  let wh' := Init.handleInitialize JSON_parse JSON_stringify provider quotaOk granted wh in
  Init.greeting wa' = Init.greeting wa /\
  filter Init.isInitMic (Init.calls wa') = filter Init.isInitMic (Init.calls wa) /\
  (exists m', AppTsx.run (Init.machine wa') ticks = Ok m' /\ AppTsx.state m' = IDLE) /\
  state (Init.machine wh') = LISTENING /\
  Init.greeting wh' = Some Init.fallback.
Proof.
  intros Hr Hs Hm Hc. cbv zeta. rewrite Hr.
  unfold Init.handleInitialize_a, Init.handleInitialize. rewrite Hc. cbn.
  split; [reflexivity|].
  split; [rewrite filter_app, app_nil_r; reflexivity|].
  split.
  - destruct (AppTsx_run_mic_off ticks (Init.machine wa) Hm (or_introl Hs))
      as [m' [Hrun [Hs' _]]].
    exists m'. split; [assumption | congruence].
  - split; [destruct granted; reflexivity | reflexivity].
Qed.

End ProviderFacts.

(** ** The life timer *)

(** X13.  For a time at or after the start date the four fields are in range
    and add up to the interval: nothing is lost or counted twice. *)
Theorem lifetimer_fields_recompose (diff : Z) :
  0 <= diff ->
  let p := LifeTimer.split diff in
  0 <= LifeTimer.hours p /\
  0 <= LifeTimer.mins p < 60 /\
  0 <= LifeTimer.secs p < 60 /\
  0 <= LifeTimer.msecs p < 1000 /\
  LifeTimer.hours p * 3600000 + LifeTimer.mins p * 60000 +
  LifeTimer.secs p * 1000 + LifeTimer.msecs p = diff.
Proof.
  intros Hd. unfold LifeTimer.split. cbn [LifeTimer.hours LifeTimer.mins LifeTimer.secs LifeTimer.msecs].
  change (1000 * 60 * 60) with 3600000. change (1000 * 60) with 60000.
  rewrite !Z.rem_mod_nonneg by lia.
  pose proof (Z.div_mod diff 3600000 ltac:(lia)) as H1.
  pose proof (Z.mod_pos_bound diff 3600000 ltac:(lia)) as B1.
  pose proof (Z.div_mod (diff mod 3600000) 60000 ltac:(lia)) as H2.
  pose proof (Z.mod_pos_bound (diff mod 3600000) 60000 ltac:(lia)) as B2.
  pose proof (Z.div_mod diff 60000 ltac:(lia)) as H3.
  pose proof (Z.mod_pos_bound diff 60000 ltac:(lia)) as B3.
  pose proof (Z.div_mod (diff mod 60000) 1000 ltac:(lia)) as H4.
  pose proof (Z.mod_pos_bound (diff mod 60000) 1000 ltac:(lia)) as B4.
  pose proof (Z.mod_pos_bound diff 1000 ltac:(lia)) as B5.
  assert ((diff mod 3600000) mod 60000 = diff mod 60000) as E1.
  { apply Z.mod_mod_divide. exists 60. reflexivity. }
  assert ((diff mod 60000) mod 1000 = diff mod 1000) as E2.
  { apply Z.mod_mod_divide. exists 60. reflexivity. }
  assert (0 <= diff / 3600000) by (apply Z.div_pos; lia).
  assert (0 <= (diff mod 3600000) / 60000 < 60)
    by (split; [apply Z.div_pos; lia | apply Z.div_lt_upper_bound; lia]).
  assert (0 <= (diff mod 60000) / 1000 < 60)
    by (split; [apply Z.div_pos; lia | apply Z.div_lt_upper_bound; lia]).
  repeat split; try lia.
Qed.

Lemma lifetimer_fields_recompose_witness :
  LifeTimer.split 1234567890 = LifeTimer.mkParts 342 56 7 890 /\
  342 * 3600000 + 56 * 60000 + 7 * 1000 + 890 = 1234567890.
Proof.
  split; [reflexivity|].
  exact (proj2 (proj2 (proj2 (proj2
           (lifetimer_fields_recompose 1234567890 ltac:(lia)))))).
Defined.

Lemma below_thousand (P : Z -> bool) :
  forallb P (map Z.of_nat (seq 0 1000)) = true ->
  forall n, 0 <= n < 1000 -> P n = true.
Proof.
  intros H n Hn. rewrite forallb_forall in H. apply H.
  apply in_map_iff. exists (Z.to_nat n). split; [lia|].
  apply in_seq. lia.
Qed.

(** X14.  For a time at or after the start date the milliseconds field has
    exactly three characters and reads back, as a decimal number, to the
    milliseconds of the interval. *)
Theorem lifetimer_msecs_three_digits (diff : Z) :
  0 <= diff ->
  String.length (LifeTimer.msecsField diff) = 3%nat /\
  LifeTimer.readDecimal (LifeTimer.msecsField diff) = Some (diff mod 1000).
Proof.
  intros Hd. unfold LifeTimer.msecsField, LifeTimer.split.
  cbn [LifeTimer.msecs]. rewrite Z.rem_mod_nonneg by lia.
  pose proof (Z.mod_pos_bound diff 1000 ltac:(lia)) as B.
  generalize dependent (diff mod 1000). intros n Hn.
  pose proof (below_thousand
    (fun n => (String.length (LifeTimer.padStart 3 "0" (LifeTimer.toString n)) =? 3)%nat
              && match LifeTimer.readDecimal
                         (LifeTimer.padStart 3 "0" (LifeTimer.toString n)) with
                 | Some k => k =? n
                 | None => false
                 end)) as H.
  cbv beta in H. specialize (H ltac:(vm_compute; reflexivity) n Hn).
  apply andb_prop in H as [H1 H2]. split.
  - apply Nat.eqb_eq. exact H1.
  - destruct (LifeTimer.readDecimal _) as [k|]; [|discriminate].
    apply Z.eqb_eq in H2. congruence.
Qed.

Lemma lifetimer_msecs_three_digits_witness :
  LifeTimer.msecsField 1234567007 = "007"%string /\
  String.length (LifeTimer.msecsField 1234567007) = 3%nat.
Proof.
  split; [reflexivity|].
  exact (proj1 (lifetimer_msecs_three_digits 1234567007 ltac:(lia))).
Defined.

(** ** The typewriter *)

Section TypewriterFacts.

Variable Char : Type.
Variable Char_eq_dec : forall a b : Char, {a = b} + {a <> b}.

Import Typewriter.

(** While the widget shows a prefix of its text, one timeout extends the
    prefix by one character, and nothing once the text is complete. *)
Lemma fire_prefix (t : list Char) (k : nat) :
  fire (mkWidget t (firstn k t) k) =
  if (k <? length t)%nat then mkWidget t (firstn (S k) t) (S k)
  else mkWidget t (firstn k t) k.
Proof.
  unfold fire. cbn [index text displayedText].
  destruct (Nat.ltb_spec k (length t)) as [Hlt|Hge]; [|reflexivity].
  destruct (nth_error t k) as [c|] eqn:E.
  2:{ apply nth_error_None in E. lia. }
  f_equal; [|lia].
  revert k Hlt E. induction t as [|x t IH]; intros k Hlt E.
  - cbn in Hlt. lia.
  - destruct k as [|k]; cbn in *.
    + congruence.
    + f_equal. apply IH; [lia | assumption].
Qed.

Lemma fires_prefix (t : list Char) (n k : nat) :
  (k <= length t)%nat ->
  fires n (mkWidget t (firstn k t) k) =
  mkWidget t (firstn (Nat.min (k + n) (length t)) t) (Nat.min (k + n) (length t)).
Proof.
  revert k. induction n as [|n IH]; intros k Hk.
  - cbn [fires]. rewrite Nat.add_0_r, Nat.min_l by assumption. reflexivity.
  - cbn [fires]. rewrite fire_prefix.
    destruct (Nat.ltb_spec k (length t)) as [Hlt|Hge].
    + rewrite IH by lia. replace (S k + n)%nat with (k + S n)%nat by lia.
      reflexivity.
    + rewrite IH by lia.
      rewrite !Nat.min_r by lia. reflexivity.
Qed.

(** X15.  After [n] timeouts a mounted typewriter shows the first [n]
    characters of its text; after as many timeouts as the text has
    characters it shows the whole text, and later timeouts change
    nothing. *)
Theorem typewriter_types_the_text (t : list Char) (n : nat) :
  displayedText (fires n (mount t)) = firstn n t /\
  index (fires n (mount t)) = Nat.min n (length t) /\
  (forall extra, fires (length t + extra) (mount t) = mkWidget t t (length t)).
Proof.
  unfold mount.
  pose proof (fires_prefix t n 0 ltac:(lia)) as H. cbn [firstn Nat.add] in H.
  rewrite H. cbn [displayedText index]. split; [|split].
  - destruct (Nat.le_ge_cases n (length t)).
    + rewrite Nat.min_l by assumption. reflexivity.
    + rewrite Nat.min_r, firstn_all by assumption.
      symmetry. apply firstn_all2. assumption.
  - reflexivity.
  - intros extra.
    pose proof (fires_prefix t (length t + extra) 0 ltac:(lia)) as H2.
    cbn [firstn Nat.add] in H2. rewrite H2.
    rewrite Nat.min_r by lia. rewrite firstn_all. reflexivity.
Qed.

Lemma skipn_cons_nth (l : list Char) (j : nat) (c : Char) :
  nth_error l j = Some c -> skipn j l = c :: skipn (S j) l.
Proof.
  revert j. induction l as [|x l IH]; intros j E.
  - destruct j; discriminate.
  - destruct j as [|j]; cbn in *; [congruence|]. apply IH. assumption.
Qed.

Lemma fires_appends (n : nat) (t shown : list Char) (j : nat) :
  displayedText (fires n (mkWidget t shown j)) = shown ++ firstn n (skipn j t).
Proof.
  revert shown j. induction n as [|n IH]; intros shown j.
  - cbn. rewrite app_nil_r. reflexivity.
  - cbn [fires]. unfold fire. cbn [index text displayedText].
    destruct (Nat.ltb_spec j (length t)) as [Hlt|Hge].
    + destruct (nth_error t j) as [c|] eqn:E.
      2:{ apply nth_error_None in E. lia. }
      replace (j + 1)%nat with (S j) by lia.
      rewrite IH, (skipn_cons_nth t j c E). cbn [firstn].
      rewrite <- app_assoc. reflexivity.
    + rewrite IH. rewrite skipn_all2 by assumption.
      rewrite !firstn_nil. reflexivity.
Qed.

(** X16.  In geminiService.ts a new text starts the typewriter over: whatever
    was shown, after the text changes and [n] timeouts pass, the first [n]
    characters of the new text are shown. *)
Theorem typewriter_reset_on_new_text (w : Widget Char) (t : list Char) (n : nat) :
  t <> text w ->
  displayedText (fires n (setTextReset Char_eq_dec t w)) = firstn n t /\
  fires (length t) (setTextReset Char_eq_dec t w) = mkWidget t t (length t).
Proof.
  intros Hne. unfold setTextReset.
  destruct (list_eq_dec Char_eq_dec t (text w)) as [E|_]; [contradiction|].
  split.
  - rewrite (fires_appends n t [] 0). reflexivity.
  - pose proof (fires_prefix t (length t) 0 ltac:(lia)) as H.
    cbn [firstn Nat.add] in H. rewrite H.
    rewrite Nat.min_id, firstn_all. reflexivity.
Qed.

(** X17.  In App.tsx a new text does not start the typewriter over: if the text
    changes when [k] characters of the old one are shown, later timeouts
    append the new text from position [k] on, behind the old prefix. *)
Theorem typewriter_keeps_old_prefix (old new : list Char) (k n : nat) :
  (k <= length old)%nat ->
  displayedText (fires n (setTextKeep new (fires k (mount old)))) =
  firstn k old ++ firstn n (skipn k new).
Proof.
  intros Hk.
  assert (fires k (mount old) = mkWidget old (firstn k old) k) as ->.
  { unfold mount. pose proof (fires_prefix old k 0 ltac:(lia)) as H.
    cbn [firstn Nat.add] in H. rewrite H, Nat.min_l by assumption. reflexivity. }
  unfold setTextKeep. cbn [displayedText index].
  apply fires_appends.
Qed.

End TypewriterFacts.

Lemma typewriter_reset_on_new_text_witness :
  Typewriter.displayedText
    (Typewriter.fires 2
       (Typewriter.setTextReset Nat.eq_dec [7; 8; 9]%nat
          (Typewriter.fires 2 (Typewriter.mount [1; 2; 3]%nat))))
  = [7; 8]%nat.
Proof.
  refine (proj1 (typewriter_reset_on_new_text nat Nat.eq_dec
                   (Typewriter.fires 2 (Typewriter.mount [1; 2; 3]%nat))
                   [7; 8; 9]%nat 2 _)).
  cbn. discriminate.
Defined.

Lemma typewriter_keeps_old_prefix_witness :
  Typewriter.displayedText
    (Typewriter.fires 5
       (Typewriter.setTextKeep [7; 8; 9; 10]%nat
          (Typewriter.fires 2 (Typewriter.mount [1; 2; 3]%nat))))
  = [1; 2; 9; 10]%nat.
Proof.
  apply (typewriter_keeps_old_prefix nat [1; 2; 3]%nat [7; 8; 9; 10]%nat 2 5).
  cbn. lia.
Defined.

(** ** The greeting and the start of the experience *)

Section InitFacts.

Variable JSON_parse : string -> option JsValue.
Variable JSON_stringify : JsValue -> string.

Local Abbreviation handleInitialize := (Init.handleInitialize JSON_parse JSON_stringify).
Local Abbreviation fetchGreeting := (Init.fetchGreeting JSON_stringify).



(** X19.  A cache entry that parses to a greeting passing the check is shown as
    it is: the provider is not asked, the entry stays, and the only call is
    [initMic], whatever the provider would have answered. *)
Theorem valid_cache_skips_provider
  (provider : Settled JsValue) (quotaOk granted : bool) (w : Init.World_h)
  (cached : string) (g : JsValue) :
  Init.cache w = Some cached ->
  cached <> ""%string ->
  JSON_parse cached = Some g ->
  validGreeting g = Ok true ->
  let w' := handleInitialize provider quotaOk granted w in
  Init.greeting w' = Some g /\
  Init.cache w' = Some cached /\
  Init.calls w' = Init.calls w ++ [Init.InitMicCalled] /\
  Init.machine w' = initMic granted (Init.machine w).
Proof.
  intros Hc Hne Hp Hv. unfold Init.handleInitialize.
  rewrite Hc. destruct (String.eqb_spec cached ""); [contradiction|].
  rewrite Hp, Hv. cbn. rewrite Hc. auto.
Qed.

(** X20.  A non-empty cache entry that does not parse, or parses to something
    that fails the check, is removed, and the handler then goes on exactly
    as on a visit with nothing cached. *)
Theorem bad_cache_is_removed
  (provider : Settled JsValue) (quotaOk granted : bool) (w : Init.World_h)
  (cached : string) :
  Init.cache w = Some cached ->
  cached <> ""%string ->
  (JSON_parse cached = None \/
   exists v, JSON_parse cached = Some v /\ validGreeting v <> Ok true) ->
  handleInitialize provider quotaOk granted w =
  handleInitialize provider quotaOk granted
    (Init.mkWorld (Init.machine w) (Init.greeting w) None
                  (Init.calls w ++ [Init.ItemRemoved])).
Proof.
  intros Hc Hne Hbad. unfold Init.handleInitialize at 1.
  rewrite Hc. destruct (String.eqb_spec cached ""); [contradiction|].
  unfold Init.handleInitialize. cbn [Init.cache].
  destruct Hbad as [Hp | [v [Hp Hv]]]; rewrite Hp; [reflexivity|].
  destruct (validGreeting v) as [[|]|e]; [congruence | reflexivity..].
Qed.

(** X21.  On a visit with nothing cached the greeting of the provider is shown
    and stored only if it resolves, passes the check and the write to the
    store succeeds; in every other case, also when a good greeting arrived
    but the write threw, the local fallback is shown and nothing is
    stored. *)
Theorem first_visit_greeting
  (provider : Settled JsValue) (quotaOk granted : bool) (w : Init.World_h) :
  Init.cache w = None ->
  let w' := handleInitialize provider quotaOk granted w in
  (forall r, provider = Resolved r -> validGreeting r = Ok true ->
             quotaOk = true ->
             Init.greeting w' = Some r /\
             Init.cache w' = Some (JSON_stringify r)) /\
  ((provider = Rejected \/ quotaOk = false \/
    exists r, provider = Resolved r /\ validGreeting r <> Ok true) ->
   Init.greeting w' = Some Init.fallback /\ Init.cache w' = None).
Proof.
  intros Hc. unfold Init.handleInitialize. rewrite Hc.
  unfold Init.fetchGreeting. cbv zeta. split.
  - intros r -> Hv ->. rewrite Hv. cbn. auto.
  - intros [-> | [-> | [r [-> Hv]]]].
    + cbn. auto.
    + destruct provider as [r|]; [|cbn; auto].
      destruct (validGreeting r) as [[|]|e]; cbn; auto.
    + destruct (validGreeting r) as [[|]|e]; [congruence | cbn; auto..].
Qed.

(** X22.  A stored greeting serves the next visit: if [JSON.parse] gives back
    what [JSON.stringify] wrote, then after a first visit that stored the
    greeting [r], a later visit with the same store shows [r] without
    asking the provider. *)
Theorem stored_greeting_serves_next_visit
  (r : JsValue) (granted1 granted2 quota2 : bool) (provider2 : Settled JsValue)
  (w : Init.World_h) (m2 : Machine) :
  JSON_parse (JSON_stringify r) = Some r ->
  JSON_stringify r <> ""%string ->
  validGreeting r = Ok true ->
  Init.cache w = None ->
  let w1 := handleInitialize (Resolved r) true granted1 w in
  let w2 := handleInitialize provider2 quota2 granted2
              (Init.mkWorld m2 None (Init.cache w1) []) in
  Init.greeting w2 = Some r /\
  Init.calls w2 = [Init.InitMicCalled] /\
  Init.cache w2 = Init.cache w1.
Proof.
  intros Hrt Hne Hv Hc w1 w2.
  assert (Init.cache w1 = Some (JSON_stringify r)) as H1.
  { unfold w1, Init.handleInitialize. rewrite Hc.
    unfold Init.fetchGreeting. rewrite Hv. reflexivity. }
  unfold w2, Init.handleInitialize. cbn [Init.cache]. rewrite H1.
  destruct (String.eqb_spec (JSON_stringify r) ""); [contradiction|].
  rewrite Hrt, Hv. cbn. auto.
Qed.

End InitFacts.

Section StoreFacts.

Variable JSON_parse : string -> option JsValue.
Variable JSON_stringify : JsValue -> string.


End StoreFacts.

(** Witnesses for the facts about the greeting, with the store format of
    the examples. *)

Lemma valid_cache_skips_provider_witness :
  let w := Init.mkWorld (mount 1000) None (Some "g"%string) [] in
  let w' := Init.handleInitialize toyParse toyStringify Rejected false true w in
  Init.greeting w' = Some Init.fallback /\
  Init.cache w' = Some "g"%string /\
  Init.calls w' = [Init.InitMicCalled] /\
  Init.machine w' = initMic true (mount 1000).
Proof.
  apply (valid_cache_skips_provider toyParse toyStringify Rejected false true
           (Init.mkWorld (mount 1000) None (Some "g"%string) [])
           "g"%string Init.fallback).
  - reflexivity.
  - discriminate.
  - reflexivity.
  - reflexivity.
Defined.

Lemma bad_cache_is_removed_witness :
  Init.handleInitialize toyParse toyStringify Rejected true true
    (Init.mkWorld (mount 1000) None (Some "{"%string) []) =
  Init.handleInitialize toyParse toyStringify Rejected true true
    (Init.mkWorld (mount 1000) None None [Init.ItemRemoved]).
Proof.
  apply (bad_cache_is_removed toyParse toyStringify Rejected true true
           (Init.mkWorld (mount 1000) None (Some "{"%string) []) "{"%string).
  - reflexivity.
  - discriminate.
  - left. reflexivity.
Defined.

Lemma first_visit_greeting_witness :
  let w := Init.mkWorld (mount 1000) None None [] in
  Init.greeting
    (Init.handleInitialize toyParse toyStringify
       (Resolved GeminiService.placeholder) false true w)
  = Some Init.fallback.
Proof.
  refine (proj1 (proj2 (first_visit_greeting toyParse toyStringify
                          (Resolved GeminiService.placeholder) false true
                          (Init.mkWorld (mount 1000) None None []) eq_refl) _)).
  right. left. reflexivity.
Defined.

Lemma stored_greeting_serves_next_visit_witness :
  let w1 := Init.handleInitialize toyParse toyStringify
              (Resolved Init.fallback) true true
              (Init.mkWorld (mount 1000) None None []) in
  let w2 := Init.handleInitialize toyParse toyStringify Rejected false false
              (Init.mkWorld (mount 2000) None (Init.cache w1) []) in
  Init.greeting w2 = Some Init.fallback /\
  Init.calls w2 = [Init.InitMicCalled] /\
  Init.cache w2 = Init.cache w1.
Proof.
  apply (stored_greeting_serves_next_visit toyParse toyStringify
           Init.fallback true false false Rejected
           (Init.mkWorld (mount 1000) None None []) (mount 2000)).
  - reflexivity.
  - discriminate.
  - reflexivity.
  - reflexivity.
Defined.

Lemma proxy_provider_result_is_valid_witness :
  validGreeting
    (JObject [("message"%string, JString "hello");
              ("author"%string, JString "Gemini via Supabase")]) = Ok true.
Proof.
  refine (proj1 (proxy_provider_result_is_valid (fun _ => ""%string)
                   (ProxyService.FetchResponse true
                      (Some (JObject [("text"%string, JString "hello")])))
                   (JObject [("message"%string, JString "hello");
                             ("author"%string, JString "Gemini via Supabase")])
                   _)).
  reflexivity.
Defined.

Lemma proxy_failure_app_idle_hardened_starts_witness :
  let provider := ProxyService.generateLuxuryGreeting (fun _ => ""%string)
                    (ProxyService.FetchResponse false (Some JNull)) in
  let wa' := Init.handleInitialize_a provider true
               (Init.mkWorld (AppTsx.mount 1000) None None []) in
  let wh' := Init.handleInitialize toyParse toyStringify provider true true
               (Init.mkWorld (mount 1000) None None []) in
  Init.greeting wa' = None /\
  filter Init.isInitMic (Init.calls wa') = [] /\
  (exists m', AppTsx.run (Init.machine wa') (ticksEvery 16 1016 [loud; loud]) = Ok m' /\
              AppTsx.state m' = IDLE) /\
  state (Init.machine wh') = LISTENING /\
  Init.greeting wh' = Some Init.fallback.
Proof.
  apply (proxy_failure_app_idle_hardened_starts toyParse toyStringify
           (fun _ => ""%string)
           (ProxyService.FetchResponse false (Some JNull)) true true
           (Init.mkWorld (AppTsx.mount 1000) None None [])
           (Init.mkWorld (mount 1000) None None [])
           (ticksEvery 16 1016 [loud; loud])); reflexivity.
Defined.
